(** * Behind the Diagnosis: a shallow embedding of the dashboard script [Str.py]

    The script loads one CSV file into a pandas [DataFrame], derives two
    columns, and then computes nine chart inputs in a fixed order, handing
    each chart to the display sink as soon as it is built.  The embedding
    follows the script line by line:

    - a [DataFrame] is an ordered dictionary from column names to columns;
      a column is a list of cells, a cell is a number, a string, or missing
      ([None], pandas' NaN);
    - a Python exception is a value of [exn]; code that may raise returns a
      [result];
    - the display sink and the [st.cache_data] memo are explicit state.

    Numbers are exact rationals.  The only irrational operation of the
    script, the square root inside Pearson's correlation, is taken in the
    real numbers; floating-point rounding is not modelled. *)

From Stdlib Require Import List String Bool Arith ZArith QArith Lia Lqa Lra.
From Stdlib Require Import Permutation Sorted.
From Stdlib Require Import Reals Qreals.
Import ListNotations.

Local Open Scope string_scope.
Local Open Scope list_scope.

(** ** Cells, columns and frames *)

Inductive cell : Type :=
| Num (q : Q)
| Str (s : string).

(** A missing value (NaN, empty CSV field) is [None]. *)
Definition column : Type := list (option cell).

Definition DataFrame : Type := list (string * column).

(** Python's [==] on two cells: numbers compare by value, strings by
    content, a number never equals a string. *)
Definition cell_eqb (a b : cell) : bool :=
  match a, b with
  | Num x, Num y => Qeq_bool x y
  | Str s, Str t => String.eqb s t
  | _, _ => false
  end.

(** The representative of a cell among the cells equal to it: a number is
    put in lowest terms. *)
Definition canon (c : cell) : cell :=
  match c with
  | Num q => Num (Qred q)
  | Str s => Str s
  end.

Definition cell_eq_dec (a b : cell) : {a = b} + {a <> b}.
Proof.
  decide equality.
  - destruct q as [n d], q0 as [n0 d0].
    destruct (Z.eq_dec n n0) as [->|Hn]; [|right; congruence].
    destruct (Pos.eq_dec d d0) as [->|Hd]; [left; reflexivity|right; congruence].
  - apply string_dec.
Defined.

(** ** Exceptions *)

Inductive exn : Type :=
| FileNotFoundError
| PermissionError
| ParserError
| KeyError (k : string)
| TypeError
| ValueError.

Inductive result (A : Type) : Type :=
| ok (a : A)
| raise (e : exn).

Arguments ok {A} a.
Arguments raise {A} e.

Definition bind {A B : Type} (m : result A) (f : A -> result B) : result B :=
  match m with
  | ok a => f a
  | raise e => raise e
  end.

Notation "x <- m ;; k" := (bind m (fun x => k))
  (at level 61, m at next level, right associativity).

(** ** Column access *)

Fixpoint lookup (k : string) (df : DataFrame) : option column :=
  match df with
  | [] => None
  | (k', c) :: rest => if String.eqb k k' then Some c else lookup k rest
  end.

(** [df[k]] *)
Definition getitem (df : DataFrame) (k : string) : result column :=
  match lookup k df with
  | Some c => ok c
  | None => raise (KeyError k)
  end.

(** [df[k] = c]: an existing column is replaced in place, a new one is
    appended. *)
Fixpoint setitem (df : DataFrame) (k : string) (c : column) : DataFrame :=
  match df with
  | [] => [(k, c)]
  | (k', c') :: rest =>
      if String.eqb k k' then (k', c) :: rest else (k', c') :: setitem rest k c
  end.

(** ** The file *)

(** What [pd.read_csv] finds at the fixed path. *)
Inductive file : Type :=
| Missing
| Unreadable
| Malformed
| Csv (df : DataFrame).

Definition read_csv (f : file) : result DataFrame :=
  match f with
  | Missing => raise FileNotFoundError
  | Unreadable => raise PermissionError
  | Malformed => raise ParserError
  | Csv df => ok df
  end.

(** ** [Series.map] with a dictionary *)

Fixpoint dict_get (d : list (cell * cell)) (k : cell) : option cell :=
  match d with
  | [] => None
  | (k', v) :: rest => if cell_eqb k k' then Some v else dict_get rest k
  end.

(** A key that is not in the dictionary, and a missing value, map to a
    missing value. *)
Definition map_cell (d : list (cell * cell)) (c : option cell) : option cell :=
  match c with
  | None => None
  | Some v => dict_get d v
  end.

Definition series_map (d : list (cell * cell)) (c : column) : column :=
  map (map_cell d) c.

(** ** [pd.cut] *)

Definition Qlt_bool (x y : Q) : bool := negb (Qle_bool y x).

(** [searchsorted(bins, x, side='left')] on sorted bins: the number of
    edges strictly below [x]. *)
Definition searchsorted_left (bins : list Q) (x : Q) : nat :=
  List.length (filter (fun b => Qlt_bool b x) bins).

(** One value: with right-closed bins, a value at or below the first edge
    or above the last edge falls in no interval. *)
Definition cut_value (bins : list Q) (labels : list string) (x : Q) : option cell :=
  let i := searchsorted_left bins x in
  if (i =? 0)%nat || (i =? List.length bins)%nat then None
  else match nth_error labels (i - 1) with
       | Some l => Some (Str l)
       | None => None
       end.

Definition cut_cell (bins : list Q) (labels : list string) (c : option cell)
  : result (option cell) :=
  match c with
  | None => ok None
  | Some (Num q) => ok (cut_value bins labels q)
  | Some (Str _) => raise TypeError
  end.

Fixpoint cut (x : column) (bins : list Q) (labels : list string) : result column :=
  match x with
  | [] => ok []
  | c :: rest =>
      g <- cut_cell bins labels c ;;
      gs <- cut rest bins labels ;;
      ok (g :: gs)
  end.

(** ** [load_data] *)

Definition diagnosis : string := "Alzheimer’s Diagnosis".

Definition diagnosis_dict : list (cell * cell) :=
  [(Str "Yes", Num 1); (Str "No", Num 0)].

Definition age_bins : list Q := [49; 59; 69; 79; 89; 99]%Q.

Definition age_labels : list string :=
  ["50–59"; "60–69"; "70–79"; "80–89"; "90–99"].

Definition load_data (f : file) : result DataFrame :=
  df <- read_csv f ;;
  d <- getitem df diagnosis ;;
  let df := setitem df "Diagnosis_Binary" (series_map diagnosis_dict d) in
  a <- getitem df "Age" ;;
  g <- cut a age_bins age_labels ;;
  ok (setitem df "Age Group" g).

(** ** Boolean indexing *)

(** [col == v], element by element; a missing value equals nothing. *)
Definition eq_mask (c : column) (v : cell) : list bool :=
  map (fun x => match x with Some a => cell_eqb a v | None => false end) c.

(** The entries of [l] at the positions where the mask holds. *)
Definition select {A : Type} (mask : list bool) (l : list A) : list A :=
  map snd (filter fst (combine mask l)).

(** [df[mask]] *)
Definition boolean_index (df : DataFrame) (mask : list bool) : DataFrame :=
  map (fun kc => (fst kc, select mask (snd kc))) df.

(** ** [Series.value_counts] *)

Definition dropna {A : Type} (c : list (option A)) : list A :=
  flat_map (fun x => match x with Some v => [v] | None => [] end) c.

(** One more occurrence of [k] in a table of counts kept in order of first
    appearance. *)
Fixpoint tally (k : cell) (t : list (cell * nat)) : list (cell * nat) :=
  match t with
  | [] => [(k, 1%nat)]
  | (k', n) :: rest =>
      if cell_eq_dec k k' then (k', S n) :: rest else (k', n) :: tally k rest
  end.

Definition count_values (l : list cell) : list (cell * nat) :=
  fold_left (fun t k => tally (canon k) t) l [].

(** Sorting by decreasing count; among equal counts the order of first
    appearance is kept. *)
Fixpoint insert_desc (e : cell * nat) (t : list (cell * nat)) : list (cell * nat) :=
  match t with
  | [] => [e]
  | e' :: rest =>
      if (snd e' <=? snd e)%nat then e :: e' :: rest else e' :: insert_desc e rest
  end.

Definition sort_desc (t : list (cell * nat)) : list (cell * nat) :=
  fold_right insert_desc [] t.

(** [col.value_counts()]: missing values are dropped. *)
Definition value_counts (c : column) : list (cell * nat) :=
  sort_desc (count_values (dropna c)).

Definition total (t : list (cell * nat)) : nat :=
  fold_right (fun e s => (snd e + s)%nat) 0%nat t.

Definition Qnat (n : nat) : Q := inject_Z (Z.of_nat n).

(** [col.value_counts(normalize=True)]: each count divided by the number
    of values counted. *)
Definition value_counts_normalized (c : column) : list (cell * Q) :=
  let t := value_counts c in
  map (fun e => (fst e, (Qnat (snd e) / Qnat (total t))%Q)) t.

Definition qmax (a b : Q) : Q := if Qle_bool a b then b else a.

(** [.max()] of a series of numbers; missing for an empty series. *)
Definition series_max (l : list Q) : option Q :=
  match l with
  | [] => None
  | x :: rest => Some (fold_left qmax rest x)
  end.

(** [.head(n)] *)
Definition head {A : Type} (n : nat) (l : list A) : list A := firstn n l.

(** ** [DataFrame.corr] *)

Fixpoint mapM {A B : Type} (f : A -> result B) (l : list A) : result (list B) :=
  match l with
  | [] => ok []
  | a :: rest =>
      b <- f a ;;
      bs <- mapM f rest ;;
      ok (b :: bs)
  end.

(** [df[names]] *)
Definition getitems (df : DataFrame) (names : list string) : result (list column) :=
  mapM (getitem df) names.

(** The numeric view of a column; [e] is raised on a string. *)
Definition to_numeric (e : exn) (c : column) : result (list (option Q)) :=
  mapM (fun x => match x with
                 | None => ok None
                 | Some (Num q) => ok (Some q)
                 | Some (Str _) => raise e
                 end) c.

(** The rows on which both columns are present. *)
Definition complete_pairs (x y : list (option Q)) : list (Q * Q) :=
  flat_map (fun p => match p with
                     | (Some a, Some b) => [(a, b)]
                     | _ => []
                     end) (combine x y).

Definition Qsum (l : list Q) : Q := fold_right Qplus 0%Q l.

Definition mean (l : list Q) : Q := (Qsum l / Qnat (List.length l))%Q.

(** Sum of the products of the deviations from the two means. *)
Definition cov_sum (p : list (Q * Q)) : Q :=
  let mx := mean (map fst p) in
  let my := mean (map snd p) in
  Qsum (map (fun ab => ((fst ab - mx) * (snd ab - my))%Q) p).

(** Sum of the squared deviations from the mean. *)
Definition ssq (l : list Q) : Q :=
  let m := mean l in
  Qsum (map (fun a => ((a - m) * (a - m))%Q) l).

(** Pearson's coefficient over the pairwise complete rows; missing when
    one of the two columns has no spread there. *)
Definition pearson (x y : list (option Q)) : option R :=
  let p := complete_pairs x y in
  let d := (ssq (map fst p) * ssq (map snd p))%Q in
  if Qeq_bool d 0 then None
  else Some (Q2R (cov_sum p) / sqrt (Q2R d))%R.

Definition corr (cols : list (list (option Q))) : list (list (option R)) :=
  map (fun x => map (fun y => pearson x y) cols) cols.

(** ** Group-by mean *)

Definition cell_leb (a b : cell) : bool :=
  match a, b with
  | Num x, Num y => Qle_bool x y
  | Num _, Str _ => true
  | Str _, Num _ => false
  | Str s, Str t => String.leb s t
  end.

Definition key_leb (a b : cell * cell) : bool :=
  if cell_eq_dec (fst a) (fst b) then cell_leb (snd a) (snd b)
  else cell_leb (fst a) (fst b).

Definition key_eq_dec (a b : cell * cell) : {a = b} + {a <> b}.
Proof. decide equality; apply cell_eq_dec. Defined.

Fixpoint insert_key (k : cell * cell) (l : list (cell * cell)) : list (cell * cell) :=
  match l with
  | [] => [k]
  | k' :: rest =>
      if key_eq_dec k k' then l
      else if key_leb k k' then k :: l
      else k' :: insert_key k rest
  end.

(** The rows with both keys present, as (key, value). *)
Definition keyed_rows (a d : column) (v : list (option Q))
  : list ((cell * cell) * option Q) :=
  flat_map (fun r => match r with
                     | (Some x, Some y, s) => [((canon x, canon y), s)]
                     | _ => []
                     end) (combine (combine a d) v).

Definition option_mean (l : list Q) : option Q :=
  match l with
  | [] => None
  | _ => Some (mean l)
  end.

(** [groupby([a, d])[v].mean().reset_index()]: one row per distinct key
    pair, keys in increasing order, the mean taken over the values that
    are present. *)
Definition groupby_mean (a d : column) (v : list (option Q))
  : list ((cell * cell) * option Q) :=
  let rows := keyed_rows a d v in
  let keys := fold_right insert_key [] (map fst rows) in
  map (fun k =>
         (k, option_mean
               (dropna (map snd (filter (fun r => if key_eq_dec (fst r) k
                                                  then true else false) rows)))))
      keys.

(** ** Chart artifacts *)

Inductive artifact : Type :=
| DiagnosisHistogram (x color : column)
| AgeGroupHistogram (x color : column)
| CorrelationHeatmap (corr_matrix : list (list (option R)))
| CognitiveLine (agg_df : list ((cell * cell) * option Q))
| CognitiveScatter (agg_df : list ((cell * cell) * option Q))
| GenderHistogram (x color : column)
| LifestyleRadar (radar_data : list (string * list (option Q)))
| CountriesPie (top_countries : list (cell * nat))
| CountriesChoropleth (country_counts : list (cell * nat)).

Inductive chart : Type :=
| fig1 | fig2 | fig_corr | fig3 | fig4 | fig5 | fig6 | fig7 | fig8.

Definition chart_of (a : artifact) : chart :=
  match a with
  | DiagnosisHistogram _ _ => fig1
  | AgeGroupHistogram _ _ => fig2
  | CorrelationHeatmap _ => fig_corr
  | CognitiveLine _ => fig3
  | CognitiveScatter _ => fig4
  | GenderHistogram _ _ => fig5
  | LifestyleRadar _ => fig6
  | CountriesPie _ => fig7
  | CountriesChoropleth _ => fig8
  end.

(** ** The computations behind the charts *)

(** [px.histogram(df, x=..., color=...)] refuses a name that is not a
    column of the frame. *)
Definition px_histogram (df : DataFrame) (x color : string) : result (column * column) :=
  match lookup x df, lookup color df with
  | Some cx, Some cc => ok (cx, cc)
  | _, _ => raise ValueError
  end.

Definition num_features : list string :=
  ["Age"; "BMI"; "Education Level"; "Cognitive Test Score"; "Diagnosis_Binary"].

Definition corr_matrix (df : DataFrame) : result (list (list (option R))) :=
  cols <- getitems df num_features ;;
  nums <- mapM (to_numeric ValueError) cols ;;
  ok (corr nums).

Definition agg_df (df : DataFrame) : result (list ((cell * cell) * option Q)) :=
  a <- getitem df "Age" ;;
  d <- getitem df diagnosis ;;
  s <- getitem df "Cognitive Test Score" ;;
  v <- to_numeric TypeError s ;;
  ok (groupby_mean a d v).

Definition lifestyle_cols : list string :=
  ["Smoking Status"; "Alcohol Consumption"; "Physical Activity Level";
   "Sleep Quality"; "Dietary Habits"].

(** [df[df[diagnosis] == group]] *)
Definition subset_of (df : DataFrame) (group : string) : result DataFrame :=
  d <- getitem df diagnosis ;;
  ok (boolean_index df (eq_mask d (Str group))).

(** [subset[col].value_counts(normalize=True).max()] *)
Definition radar_value (subset : DataFrame) (col : string) : result (option Q) :=
  c <- getitem subset col ;;
  ok (series_max (map snd (value_counts_normalized c))).

Definition radar_counts (df : DataFrame) (group : string) : result (list (option Q)) :=
  subset <- subset_of df group ;;
  mapM (radar_value subset) lifestyle_cols.

Definition radar_data (df : DataFrame) : result (list (string * list (option Q))) :=
  y <- radar_counts df "Yes" ;;
  n <- radar_counts df "No" ;;
  ok [("Yes", y); ("No", n)].

Definition diagnosed_df (df : DataFrame) : result DataFrame :=
  subset_of df "Yes".

Definition top_countries (diagnosed : DataFrame) : result (list (cell * nat)) :=
  c <- getitem diagnosed "Country" ;;
  ok (head 10 (value_counts c)).

Definition country_counts (diagnosed : DataFrame) : result (list (cell * nat)) :=
  c <- getitem diagnosed "Country" ;;
  ok (value_counts c).

Definition make_fig1 (df : DataFrame) : result artifact :=
  h <- px_histogram df diagnosis diagnosis ;;
  ok (DiagnosisHistogram (fst h) (snd h)).

Definition make_fig2 (df : DataFrame) : result artifact :=
  h <- px_histogram df "Age Group" diagnosis ;;
  ok (AgeGroupHistogram (fst h) (snd h)).

Definition make_fig5 (df : DataFrame) : result artifact :=
  h <- px_histogram df "Gender" diagnosis ;;
  ok (GenderHistogram (fst h) (snd h)).

(** ** The script: computations interleaved with the display sink *)

(** A statement of the script runs against the list of artifacts displayed
    so far.  An exception leaves the sink as it was when it was raised. *)
Definition script (A : Type) : Type := list artifact -> result A * list artifact.

Definition sbind {A B : Type} (m : script A) (f : A -> script B) : script B :=
  fun s => match m s with
           | (ok a, s') => f a s'
           | (raise e, s') => (raise e, s')
           end.

Notation "x <~ m ;; k" := (sbind m (fun x => k))
  (at level 61, m at next level, right associativity).

Definition lift {A : Type} (r : result A) : script A := fun s => (r, s).

(** [st.plotly_chart(fig)] and [st.pyplot(fig)] *)
Definition plotly_chart (a : artifact) : script unit := fun s => (ok tt, s ++ [a]).
Definition pyplot (a : artifact) : script unit := fun s => (ok tt, s ++ [a]).

(** Lines 29 to 112 of the script. *)
Definition view_builder (df : DataFrame) : script unit :=
  f1 <~ lift (make_fig1 df) ;;
  _ <~ plotly_chart f1 ;;
  f2 <~ lift (make_fig2 df) ;;
  _ <~ plotly_chart f2 ;;
  m <~ lift (corr_matrix df) ;;
  _ <~ pyplot (CorrelationHeatmap m) ;;
  agg <~ lift (agg_df df) ;;
  _ <~ plotly_chart (CognitiveLine agg) ;;
  _ <~ plotly_chart (CognitiveScatter agg) ;;
  f5 <~ lift (make_fig5 df) ;;
  _ <~ plotly_chart f5 ;;
  r <~ lift (radar_data df) ;;
  _ <~ plotly_chart (LifestyleRadar r) ;;
  dd <~ lift (diagnosed_df df) ;;
  t <~ lift (top_countries dd) ;;
  _ <~ plotly_chart (CountriesPie t) ;;
  c <~ lift (country_counts dd) ;;
  plotly_chart (CountriesChoropleth c).

(** ** The memo of [st.cache_data] and the whole script *)

Definition cache : Type := option DataFrame.

(** [load_data()] under [@st.cache_data]: the function has no argument, so
    the memo holds at most one table; a call that raises stores nothing. *)
Definition load_data_cached (m : cache) (f : file) : result DataFrame * cache :=
  match m with
  | Some df => (ok df, m)
  | None =>
      match load_data f with
      | ok df => (ok df, Some df)
      | raise e => (raise e, None)
      end
  end.

Record run : Type := {
  outcome : result unit;
  displayed : list artifact;
  memo : cache
}.

(** One execution of the script, from the memo left by earlier ones. *)
Definition main (m : cache) (f : file) : run :=
  match load_data_cached m f with
  | (raise e, m') => {| outcome := raise e; displayed := []; memo := m' |}
  | (ok df, m') =>
      let rs := view_builder df [] in
      {| outcome := fst rs; displayed := snd rs; memo := m' |}
  end.

(** ** Each chart on its own *)

(** What the script computes for one chart, taken alone. *)
Definition compute (c : chart) (df : DataFrame) : result artifact :=
  match c with
  | fig1 => make_fig1 df
  | fig2 => make_fig2 df
  | fig_corr => m <- corr_matrix df ;; ok (CorrelationHeatmap m)
  | fig3 => agg <- agg_df df ;; ok (CognitiveLine agg)
  | fig4 => agg <- agg_df df ;; ok (CognitiveScatter agg)
  | fig5 => make_fig5 df
  | fig6 => r <- radar_data df ;; ok (LifestyleRadar r)
  | fig7 => dd <- diagnosed_df df ;; t <- top_countries dd ;; ok (CountriesPie t)
  | fig8 => dd <- diagnosed_df df ;; c <- country_counts dd ;; ok (CountriesChoropleth c)
  end.

Definition script_order : list chart :=
  [fig1; fig2; fig_corr; fig3; fig4; fig5; fig6; fig7; fig8].

(** Computing and displaying the charts of a list one after the other,
    stopping at the first exception. *)
Fixpoint run_charts (cs : list chart) (df : DataFrame) : script unit :=
  match cs with
  | [] => lift (ok tt)
  | c :: rest =>
      a <~ lift (compute c df) ;;
      _ <~ plotly_chart a ;;
      run_charts rest df
  end.

(** ** Sample tables *)

Definition yes : option cell := Some (Str "Yes").
Definition no : option cell := Some (Str "No").

(** The four-row scenario. *)
Definition ex4 : DataFrame :=
  [("Age", [Some (Num 55); Some (Num 65); Some (Num 95); Some (Num 105)]);
   (diagnosis, [yes; no; yes; yes])].

(** A complete table of four subjects. *)
Definition ex_full : DataFrame :=
  [("Country", [Some (Str "Canada"); Some (Str "Brazil"); Some (Str "Canada"); Some (Str "India")]);
   ("Age", [Some (Num 55); Some (Num 65); Some (Num 95); Some (Num 72)]);
   ("Gender", [Some (Str "Female"); Some (Str "Male"); Some (Str "Male"); Some (Str "Female")]);
   ("Education Level", [Some (Num 12); Some (Num 8); Some (Num 16); Some (Num 10)]);
   ("BMI", [Some (Num (251 # 10)); Some (Num (302 # 10)); Some (Num 22); Some (Num 27)]);
   ("Physical Activity Level", [Some (Str "Low"); Some (Str "High"); Some (Str "Low"); Some (Str "Medium")]);
   ("Smoking Status", [Some (Str "Never"); Some (Str "Former"); Some (Str "Never"); Some (Str "Current")]);
   ("Alcohol Consumption", [Some (Str "Never"); Some (Str "Regularly"); Some (Str "Occasionally"); Some (Str "Never")]);
   ("Cognitive Test Score", [Some (Num 40); Some (Num 82); Some (Num 35); Some (Num 77)]);
   ("Sleep Quality", [Some (Str "Poor"); Some (Str "Good"); Some (Str "Poor"); Some (Str "Average")]);
   ("Dietary Habits", [Some (Str "Healthy"); Some (Str "Average"); Some (Str "Unhealthy"); Some (Str "Healthy")]);
   (diagnosis, [yes; no; yes; no])].

Definition drop_column (k : string) (df : DataFrame) : DataFrame :=
  filter (fun kc => negb (String.eqb k (fst kc))) df.

Definition loaded (raw : DataFrame) : DataFrame :=
  match load_data (Csv raw) with
  | ok df => df
  | raise _ => []
  end.

(** The cell of column [k] at row [i]. *)
Definition at_row (df : DataFrame) (k : string) (i : nat) : option (option cell) :=
  match lookup k df with
  | Some c => nth_error c i
  | None => None
  end.

(** The decade of an age between 50 and 99, as the labels name it. *)
Definition decade_bucket (age : Z) : string :=
  if (age <=? 59)%Z then "50–59"
  else if (age <=? 69)%Z then "60–69"
  else if (age <=? 79)%Z then "70–79"
  else if (age <=? 89)%Z then "80–89"
  else "90–99".

(** A table with an unexpected label and a missing one. *)
Definition ex_labels : DataFrame :=
  [("Age", [Some (Num 61); Some (Num 74); Some (Num 88)]);
   (diagnosis, [yes; Some (Str "Maybe"); None])].

(** ** Vocabulary of the statements *)

(** The count a table records for [k]; 0 when [k] is not among its keys. *)
Fixpoint recorded_count (t : list (cell * nat)) (k : cell) : nat :=
  match t with
  | [] => 0%nat
  | (k', n) :: rest =>
      ((if cell_eq_dec k k' then n else 0) + recorded_count rest k)%nat
  end.

(** The values [value_counts] counts in a column: those present, each
    through its representative. *)
Definition counted (c : column) : list cell := map canon (dropna c).

Definition occurrences (l : list cell) (k : cell) : nat :=
  count_occ cell_eq_dec l k.

Definition in_keys (ks : list cell) (k : cell) : bool :=
  if in_dec cell_eq_dec k ks then true else false.

(** The row carries the diagnosis label [g]. *)
Definition has_label (g : string) (d : option cell) : bool :=
  match d with
  | Some a => cell_eqb a (Str g)
  | None => false
  end.

(** A row, given by its label and its country, is a diagnosed subject of
    one of the countries [ks]. *)
Definition diagnosed_in (ks : list cell) (r : option cell * option cell) : bool :=
  has_label "Yes" (fst r) &&
  match snd r with
  | Some c => in_keys ks (canon c)
  | None => false
  end.

(** The share of [k] among the values [l]. *)
Definition share (l : list cell) (k : cell) : Q :=
  (Qnat (occurrences l k) / Qnat (List.length l))%Q.

(** Decreasing counts. *)
Definition count_ge (a b : cell * nat) : Prop := (snd b <= snd a)%nat.

(** A table in which the only diagnosed subject has no recorded smoking
    status. *)
Definition ex_unrecorded : DataFrame :=
  [("Age", [Some (Num 58); Some (Num 81)]);
   (diagnosis, [yes; no]);
   ("Smoking Status", [None; Some (Str "Never")]);
   ("Alcohol Consumption", [Some (Str "Never"); Some (Str "Never")]);
   ("Physical Activity Level", [Some (Str "Low"); Some (Str "High")]);
   ("Sleep Quality", [Some (Str "Poor"); Some (Str "Good")]);
   ("Dietary Habits", [Some (Str "Healthy"); Some (Str "Average")])].

(** The entry of a matrix at row [i], column [j]. *)
Definition entry {A : Type} (m : list (list A)) (i j : nat) : option A :=
  match nth_error m i with
  | Some row => nth_error row j
  | None => None
  end.

Definition swap {A B : Type} (p : A * B) : B * A := (snd p, fst p).

(** The memo can only hold what [load_data] returns on the file. *)
Definition coherent (m : cache) (f : file) : Prop :=
  match m with
  | None => True
  | Some df => load_data f = ok df
  end.

(** No cell of the column is a string. *)
Definition numeric (c : column) : Prop := forall s, ~ In (Some (Str s)) c.

(** A row, given by its label and its country, is a diagnosed subject
    with a recorded country. *)
Definition diagnosed_recorded (r : option cell * option cell) : bool :=
  has_label "Yes" (fst r) &&
  match snd r with
  | Some _ => true
  | None => false
  end.

(** The number of positions a mask keeps. *)
Definition kept (mask : list bool) : nat := List.length (filter (fun b => b) mask).

(** The frame has a column of that name. *)
Definition has_column (df : DataFrame) (k : string) : Prop := lookup k df <> None.

(** The frame has a column of that name, and it holds no string. *)
Definition has_numeric (df : DataFrame) (k : string) : Prop :=
  exists c, lookup k df = Some c /\ numeric c.

(** The five numeric columns of the sample table. *)
Definition ex_full_features : list (list (option Q)) :=
  [[Some 55; Some 65; Some 95; Some 72];
   [Some (251 # 10); Some (302 # 10); Some 22; Some 27];
   [Some 12; Some 8; Some 16; Some 10];
   [Some 40; Some 82; Some 35; Some 77];
   [Some 1; Some 0; Some 1; Some 0]]%Q.

(** A key of the group-by comes strictly before another one. *)
Definition key_lt (a b : cell * cell) : Prop := key_leb a b = true /\ a <> b.

(** A cell that is its own representative. *)
Definition canonical (c : cell) : Prop := canon c = c.

Definition canonical_key (k : cell * cell) : Prop :=
  canonical (fst k) /\ canonical (snd k).

(** The number of rows labelled "Yes" whose country is [k]. *)
Definition diagnosed_rows (d c : column) (k : cell) : nat :=
  List.length (filter (diagnosed_in [k]) (combine d c)).

(** The numbers recorded in a column. *)
Definition numbers (c : column) : list Q :=
  flat_map (fun x => match x with Some (Num q) => [q] | _ => [] end) c.

(** All the numbers of the list are equal: a feature without spread. *)
Definition constant (l : list Q) : Prop :=
  forall a b, In a l -> In b l -> (a == b)%Q.

(** The sample table with every subject diagnosed. *)
Definition ex_all_yes : DataFrame :=
  setitem ex_full diagnosis [yes; yes; yes; yes].

(** * Properties *)

(** ** Frames *)

Lemma lookup_setitem_same (df : DataFrame) (k : string) (c : column) :
  lookup k (setitem df k c) = Some c.
Proof.
  induction df as [|[k' c'] rest IH]; simpl.
  - now rewrite String.eqb_refl.
  - destruct (String.eqb k k') eqn:E; simpl; rewrite E; auto.
Qed.

Lemma lookup_setitem_other (df : DataFrame) (k k' : string) (c : column) :
  String.eqb k k' = false ->
  lookup k (setitem df k' c) = lookup k df.
Proof.
  intros Hne. induction df as [|[k0 c0] rest IH]; simpl.
  - now rewrite Hne.
  - destruct (String.eqb k' k0) eqn:E; simpl.
    + apply String.eqb_eq in E. subst k0. now rewrite Hne.
    + destruct (String.eqb k k0); auto.
Qed.

Lemma bind_ok {A B : Type} (m : result A) (f : A -> result B) (b : B) :
  bind m f = ok b -> exists a, m = ok a /\ f a = ok b.
Proof. destruct m as [a|e]; simpl; [eauto | discriminate]. Qed.

Lemma getitem_ok (df : DataFrame) (k : string) (c : column) :
  getitem df k = ok c <-> lookup k df = Some c.
Proof.
  unfold getitem. destruct (lookup k df); split; congruence.
Qed.

(** ** Loading *)

Lemma cut_nth (bins : list Q) (labels : list string) (x g : column) :
  cut x bins labels = ok g ->
  forall i c, nth_error x i = Some c ->
    exists r, cut_cell bins labels c = ok r /\ nth_error g i = Some r.
Proof.
  revert g. induction x as [|c0 rest IH]; intros g H i c Hi.
  - destruct i; discriminate.
  - simpl in H. apply bind_ok in H as (r0 & Hr0 & H).
    apply bind_ok in H as (gs & Hgs & H). injection H as <-.
    destruct i as [|i]; simpl in *.
    + injection Hi as <-. eauto.
    + eapply IH; eauto.
Qed.

(** What a successful load leaves in the table. *)
Lemma load_data_ok (f : file) (df : DataFrame) :
  load_data f = ok df ->
  exists raw d a g,
    f = Csv raw /\
    lookup diagnosis raw = Some d /\
    lookup "Age" raw = Some a /\
    cut a age_bins age_labels = ok g /\
    df = setitem (setitem raw "Diagnosis_Binary" (series_map diagnosis_dict d))
                 "Age Group" g.
Proof.
  unfold load_data. intros H.
  apply bind_ok in H as (raw & Hraw & H).
  apply bind_ok in H as (d & Hd & H).
  apply bind_ok in H as (a & Ha & H).
  apply bind_ok in H as (g & Hg & H).
  injection H as <-.
  destruct f; try discriminate. injection Hraw as ->.
  apply getitem_ok in Hd, Ha.
  rewrite lookup_setitem_other in Ha by reflexivity.
  exists raw, d, a, g. auto.
Qed.

Lemma load_data_columns (f : file) (df : DataFrame) :
  load_data f = ok df ->
  exists d a g,
    cut a age_bins age_labels = ok g /\
    lookup diagnosis df = Some d /\
    lookup "Diagnosis_Binary" df = Some (series_map diagnosis_dict d) /\
    lookup "Age" df = Some a /\
    lookup "Age Group" df = Some g.
Proof.
  intros H. apply load_data_ok in H as (raw & d & a & g & -> & Hd & Ha & Hg & ->).
  exists d, a, g. repeat split; auto.
  - rewrite !lookup_setitem_other by reflexivity. exact Hd.
  - rewrite lookup_setitem_other by reflexivity. apply lookup_setitem_same.
  - rewrite !lookup_setitem_other by reflexivity. exact Ha.
  - apply lookup_setitem_same.
Qed.

Lemma diagnosis_binary_row (f : file) (df : DataFrame) (i : nat) (label : option cell) :
  load_data f = ok df ->
  at_row df diagnosis i = Some label ->
  at_row df "Diagnosis_Binary" i = Some (map_cell diagnosis_dict label).
Proof.
  intros H Hl. apply load_data_columns in H as (d & a & g & _ & Hd & Hb & _ & _).
  unfold at_row in *. rewrite Hd in Hl. rewrite Hb.
  unfold series_map. now apply map_nth_error.
Qed.

Lemma map_cell_diagnosis (label : option cell) :
  (label = yes /\ map_cell diagnosis_dict label = Some (Num 1)) \/
  (label = no /\ map_cell diagnosis_dict label = Some (Num 0)) \/
  (label <> yes /\ label <> no /\ map_cell diagnosis_dict label = None).
Proof.
  unfold yes, no. destruct label as [[q|s]|]; simpl.
  - right; right. repeat split; congruence.
  - destruct (String.eqb s "Yes") eqn:E1.
    + apply String.eqb_eq in E1. subst. now left.
    + destruct (String.eqb s "No") eqn:E2.
      * apply String.eqb_eq in E2. subst. right; left. now split.
      * right; right. apply String.eqb_neq in E1, E2.
        repeat split; congruence.
  - right; right. repeat split; congruence.
Qed.

(** C6: on every row of a loaded table the binary flag follows the rule
    of the dictionary: the label "Yes" gives 1, the label "No" gives 0,
    and any other label, a missing one included, gives a missing value. *)
Theorem diagnosis_binary_rule (f : file) (df : DataFrame) (i : nat) (label : option cell) :
  load_data f = ok df ->
  at_row df diagnosis i = Some label ->
  exists flag,
    at_row df "Diagnosis_Binary" i = Some flag /\
    (label = Some (Str "Yes") -> flag = Some (Num 1)) /\
    (label = Some (Str "No") -> flag = Some (Num 0)) /\
    (label <> Some (Str "Yes") -> label <> Some (Str "No") -> flag = None).
Proof.
  intros H Hl. exists (map_cell diagnosis_dict label). split.
  - eapply diagnosis_binary_row; eauto.
  - destruct (map_cell_diagnosis label) as [[-> ->]|[[-> ->]|(Hy & Hn & ->)]];
      unfold yes, no in *; repeat split; intros; congruence.
Qed.

Lemma diagnosis_binary_rule_witness :
  exists flag,
    at_row (loaded ex4) "Diagnosis_Binary" 1 = Some flag /\
    (no = Some (Str "Yes") -> flag = Some (Num 1)) /\
    (no = Some (Str "No") -> flag = Some (Num 0)) /\
    (no <> Some (Str "Yes") -> no <> Some (Str "No") -> flag = None).
Proof.
  apply (diagnosis_binary_rule (Csv ex4) (loaded ex4) 1 no); reflexivity.
Defined.

(** C1, as stated, fails: an unexpected label and a missing label give a
    missing flag, not 0. *)
Lemma diagnosis_binary_not_zero :
  exists df,
    load_data (Csv ex_labels) = ok df /\
    at_row df diagnosis 1 = Some (Some (Str "Maybe")) /\
    at_row df "Diagnosis_Binary" 1 = Some None /\
    at_row df diagnosis 2 = Some None /\
    at_row df "Diagnosis_Binary" 2 = Some None /\
    at_row df "Diagnosis_Binary" 1 <> Some (Some (Num 0)) /\
    at_row df "Diagnosis_Binary" 2 <> Some (Some (Num 0)).
Proof.
  eexists. split; [reflexivity|]. repeat split; discriminate.
Qed.

(** C1, amended: on every row of a loaded table the flag is 1 exactly
    when the label is "Yes", is 0 exactly when the label is "No", and is
    missing exactly when the label is anything else. *)
Theorem diagnosis_binary_iff (f : file) (df : DataFrame) (i : nat) (label : option cell) :
  load_data f = ok df ->
  at_row df diagnosis i = Some label ->
  exists flag,
    at_row df "Diagnosis_Binary" i = Some flag /\
    (flag = Some (Num 1) <-> label = Some (Str "Yes")) /\
    (flag = Some (Num 0) <-> label = Some (Str "No")) /\
    (flag = None <-> label <> Some (Str "Yes") /\ label <> Some (Str "No")).
Proof.
  intros H Hl. exists (map_cell diagnosis_dict label). split.
  - eapply diagnosis_binary_row; eauto.
  - destruct (map_cell_diagnosis label) as [[-> ->]|[[-> ->]|(Hy & Hn & ->)]];
      unfold yes, no in *.
    + repeat split; intros; try congruence; try discriminate.
      destruct H0 as [Hy _]. now contradiction Hy.
    + repeat split; intros; try congruence; try discriminate.
      destruct H0 as [_ Hn]. now contradiction Hn.
    + repeat split; intros; try congruence; try discriminate.
Qed.

Lemma diagnosis_binary_iff_witness :
  exists flag,
    at_row (loaded ex_labels) "Diagnosis_Binary" 1 = Some flag /\
    (flag = Some (Num 1) <-> Some (Str "Maybe") = Some (Str "Yes")) /\
    (flag = Some (Num 0) <-> Some (Str "Maybe") = Some (Str "No")) /\
    (flag = None <->
     Some (Str "Maybe") <> Some (Str "Yes") /\ Some (Str "Maybe") <> Some (Str "No")).
Proof.
  apply (diagnosis_binary_iff (Csv ex_labels) (loaded ex_labels) 1 (Some (Str "Maybe")));
    reflexivity.
Defined.

(** ** Age groups *)

Lemma Qlt_bool_iff (a b : Q) : Qlt_bool a b = true <-> (a < b)%Q.
Proof.
  unfold Qlt_bool. rewrite negb_true_iff. split.
  - intros H. apply Qnot_le_lt. intros Hle.
    apply Qle_bool_iff in Hle. congruence.
  - intros H. destruct (Qle_bool b a) eqn:E; auto.
    apply Qle_bool_iff in E. exfalso. exact (Qlt_not_le _ _ H E).
Qed.

Lemma Qlt_bool_false_iff (a b : Q) : Qlt_bool a b = false <-> (b <= a)%Q.
Proof.
  unfold Qlt_bool. rewrite negb_false_iff. apply Qle_bool_iff.
Qed.

(** How many edges lie strictly below an integral age. *)
Lemma Qlt_bool_inject_Z (b z : Z) (q : Q) :
  (q == inject_Z z)%Q -> Qlt_bool (inject_Z b) q = (b <? z)%Z.
Proof.
  intros Hq. destruct (Z.ltb_spec b z) as [Hlt|Hge].
  - apply Qlt_bool_iff. rewrite Hq. now rewrite <- Zlt_Qlt.
  - apply Qlt_bool_false_iff. rewrite Hq. now rewrite <- Zle_Qle.
Qed.

Lemma cut_value_decade (q : Q) (z : Z) :
  (q == inject_Z z)%Q -> (50 <= z <= 99)%Z ->
  cut_value age_bins age_labels q = Some (Str (decade_bucket z)).
Proof.
  intros Hq Hz. unfold cut_value, searchsorted_left, age_bins. simpl filter.
  change (49%Q) with (inject_Z 49). change (59%Q) with (inject_Z 59).
  change (69%Q) with (inject_Z 69). change (79%Q) with (inject_Z 79).
  change (89%Q) with (inject_Z 89). change (99%Q) with (inject_Z 99).
  rewrite !(Qlt_bool_inject_Z _ z q Hq). unfold decade_bucket.
  destruct (Z.ltb_spec 49 z); [|lia].
  destruct (Z.ltb_spec 99 z); [lia|].
  destruct (Z.ltb_spec 59 z), (Z.leb_spec z 59); try lia;
  destruct (Z.ltb_spec 69 z), (Z.leb_spec z 69); try lia;
  destruct (Z.ltb_spec 79 z), (Z.leb_spec z 79); try lia;
  destruct (Z.ltb_spec 89 z), (Z.leb_spec z 89); try lia;
  reflexivity.
Qed.

Lemma cut_value_below (q : Q) :
  (q <= 49)%Q -> cut_value age_bins age_labels q = None.
Proof.
  intros Hq. unfold cut_value, searchsorted_left, age_bins. simpl filter.
  repeat match goal with
  | |- context [Qlt_bool ?b q] =>
      let E := fresh "E" in
      destruct (Qlt_bool b q) eqn:E;
      [apply Qlt_bool_iff in E; exfalso; Lqa.lra | clear E]
  end.
  reflexivity.
Qed.

Lemma cut_value_above (q : Q) :
  (100 <= q)%Q -> cut_value age_bins age_labels q = None.
Proof.
  intros Hq. unfold cut_value, searchsorted_left, age_bins. simpl filter.
  repeat match goal with
  | |- context [Qlt_bool ?b q] =>
      let E := fresh "E" in
      destruct (Qlt_bool b q) eqn:E;
      [clear E | apply Qlt_bool_false_iff in E; exfalso; Lqa.lra]
  end.
  reflexivity.
Qed.

Lemma age_group_row (f : file) (df : DataFrame) (i : nat) (age : option cell) :
  load_data f = ok df ->
  at_row df "Age" i = Some age ->
  exists group,
    cut_cell age_bins age_labels age = ok group /\
    at_row df "Age Group" i = Some group.
Proof.
  intros H Ha. apply load_data_columns in H as (d & a & g & Hg & _ & _ & Hage & Hgrp).
  unfold at_row in *. rewrite Hage in Ha. rewrite Hgrp.
  eapply cut_nth; eauto.
Qed.

(** C2: on every row of a loaded table, an age that is an integer between
    50 and 99 is given the label of its decade, 50 and 99 included; an age
    at or below 49, at or above 100, or missing is given no label.  The
    ages 55, 65, 95 and 105 get "50–59", "60–69", "90–99" and no label. *)
Theorem age_group_decades (f : file) (df : DataFrame) (i : nat) (age : option cell) :
  load_data f = ok df ->
  at_row df "Age" i = Some age ->
  exists group,
    at_row df "Age Group" i = Some group /\
    (forall q z, age = Some (Num q) -> (q == inject_Z z)%Q -> (50 <= z <= 99)%Z ->
                 group = Some (Str (decade_bucket z))) /\
    (forall q, age = Some (Num q) -> (q <= 49)%Q \/ (100 <= q)%Q -> group = None) /\
    (age = None -> group = None) /\
    decade_bucket 50 = "50–59" /\ decade_bucket 99 = "90–99" /\
    lookup "Age Group" (loaded ex4)
    = Some [Some (Str "50–59"); Some (Str "60–69"); Some (Str "90–99"); None].
Proof.
  intros H Ha. destruct (age_group_row f df i age H Ha) as (group & Hc & Hg).
  exists group. split; [exact Hg|].
  repeat split.
  - intros q z -> Hq Hz. simpl in Hc. injection Hc as <-.
    now apply cut_value_decade.
  - intros q -> [Hq|Hq]; simpl in Hc; injection Hc as <-.
    + now apply cut_value_below.
    + now apply cut_value_above.
  - intros ->. simpl in Hc. now injection Hc as <-.
Qed.

Lemma age_group_decades_witness :
  exists group,
    at_row (loaded ex4) "Age Group" 2 = Some group /\
    (forall q z, Some (Num 95) = Some (Num q) -> (q == inject_Z z)%Q ->
                 (50 <= z <= 99)%Z -> group = Some (Str (decade_bucket z))) /\
    (forall q, Some (Num 95) = Some (Num q) -> (q <= 49)%Q \/ (100 <= q)%Q ->
               group = None) /\
    (Some (Num 95) = None -> group = None) /\
    decade_bucket 50 = "50–59" /\ decade_bucket 99 = "90–99" /\
    lookup "Age Group" (loaded ex4)
    = Some [Some (Str "50–59"); Some (Str "60–69"); Some (Str "90–99"); None].
Proof.
  apply (age_group_decades (Csv ex4) (loaded ex4) 2 (Some (Num 95))); reflexivity.
Defined.

(** ** Counting values *)

Lemma count_values_canon (l : list cell) (t : list (cell * nat)) :
  fold_left (fun t k => tally (canon k) t) l t
  = fold_left (fun t k => tally k t) (map canon l) t.
Proof.
  revert t. induction l as [|x l IH]; intros t; simpl; auto.
Qed.

Lemma recorded_count_tally (k k' : cell) (t : list (cell * nat)) :
  recorded_count (tally k t) k'
  = (recorded_count t k' + if cell_eq_dec k' k then 1 else 0)%nat.
Proof.
  induction t as [|[k0 n] rest IH]; simpl.
  - destruct (cell_eq_dec k' k); lia.
  - destruct (cell_eq_dec k k0) as [->|Hne]; simpl.
    + destruct (cell_eq_dec k' k0); lia.
    + rewrite IH. destruct (cell_eq_dec k' k0), (cell_eq_dec k' k); lia.
Qed.

Lemma tally_keys (k k' : cell) (t : list (cell * nat)) :
  In k' (map fst (tally k t)) <-> k' = k \/ In k' (map fst t).
Proof.
  induction t as [|[k0 n] rest IH]; simpl.
  - intuition.
  - destruct (cell_eq_dec k k0) as [->|Hne]; simpl.
    + intuition.
    + rewrite IH. intuition.
Qed.

Lemma tally_NoDup (k : cell) (t : list (cell * nat)) :
  NoDup (map fst t) -> NoDup (map fst (tally k t)).
Proof.
  induction t as [|[k0 n] rest IH]; simpl; intros H.
  - repeat constructor. intros [].
  - inversion H as [|? ? Hnin Hnd]; subst.
    destruct (cell_eq_dec k k0) as [->|Hne]; simpl.
    + now constructor.
    + constructor; auto. rewrite tally_keys. intros [->|Hin]; auto.
Qed.

Lemma tally_total (k : cell) (t : list (cell * nat)) :
  total (tally k t) = S (total t).
Proof.
  induction t as [|[k0 n] rest IH]; simpl; auto.
  destruct (cell_eq_dec k k0); simpl; lia.
Qed.

Lemma tally_positive (k : cell) (t : list (cell * nat)) :
  Forall (fun e => (1 <= snd e)%nat) t ->
  Forall (fun e => (1 <= snd e)%nat) (tally k t).
Proof.
  induction t as [|[k0 n] rest IH]; simpl; intros H.
  - repeat constructor.
  - inversion H; subst. destruct (cell_eq_dec k k0); constructor; simpl in *; auto; lia.
Qed.

(** The table built from [l], started from [t]. *)
Lemma fold_tally (l : list cell) (t : list (cell * nat)) :
  let t' := fold_left (fun t k => tally k t) l t in
  (forall k, recorded_count t' k = (recorded_count t k + occurrences l k)%nat) /\
  (forall k, In k (map fst t') <-> In k l \/ In k (map fst t)) /\
  (NoDup (map fst t) -> NoDup (map fst t')) /\
  total t' = (total t + List.length l)%nat /\
  (Forall (fun e => (1 <= snd e)%nat) t -> Forall (fun e => (1 <= snd e)%nat) t').
Proof.
  revert t. induction l as [|x l IH]; intros t; simpl.
  - repeat split; auto; try lia; intuition.
  - destruct (IH (tally x t)) as (Hc & Hk & Hn & Ht & Hp).
    repeat split.
    + intros k. rewrite Hc, recorded_count_tally. unfold occurrences. simpl.
      destruct (cell_eq_dec x k), (cell_eq_dec k x); subst; try congruence; lia.
    + rewrite Hk, tally_keys. intuition.
    + rewrite Hk, tally_keys. intuition.
    + intros H. apply Hn. now apply tally_NoDup.
    + rewrite Ht, tally_total. lia.
    + intros H. apply Hp. now apply tally_positive.
Qed.

Lemma NoDup_recorded_count (t : list (cell * nat)) (k : cell) (n : nat) :
  NoDup (map fst t) -> In (k, n) t -> recorded_count t k = n.
Proof.
  induction t as [|[k0 n0] rest IH]; simpl; intros Hnd Hin; [contradiction|].
  inversion Hnd as [|? ? Hnin Hnd']; subst.
  destruct Hin as [E|Hin].
  - injection E as -> ->. destruct (cell_eq_dec k k); [|congruence].
    assert (recorded_count rest k = 0%nat) as ->; [|lia].
    clear -Hnin. induction rest as [|[k1 n1] r IH]; simpl in *; auto.
    destruct (cell_eq_dec k k1); [subst; tauto|]. apply IH. tauto.
  - destruct (cell_eq_dec k k0) as [->|Hne].
    + exfalso. apply Hnin. now apply (in_map fst) in Hin.
    + simpl. now apply IH.
Qed.

(** ** Sorting by decreasing count *)

Lemma insert_desc_perm (e : cell * nat) (t : list (cell * nat)) :
  Permutation (e :: t) (insert_desc e t).
Proof.
  induction t as [|e' rest IH]; simpl; auto.
  destruct (snd e' <=? snd e)%nat; auto.
  rewrite perm_swap. now constructor.
Qed.

Lemma sort_desc_perm (t : list (cell * nat)) : Permutation t (sort_desc t).
Proof.
  induction t as [|e rest IH]; simpl; auto.
  rewrite <- insert_desc_perm. now constructor.
Qed.

Lemma insert_desc_sorted (e : cell * nat) (t : list (cell * nat)) :
  Sorted count_ge t -> Sorted count_ge (insert_desc e t).
Proof.
  induction t as [|e' rest IH]; simpl; intros H.
  - repeat constructor.
  - destruct (Nat.leb_spec (snd e') (snd e)) as [Hle|Hgt].
    + constructor; [exact H | constructor; exact Hle].
    + inversion H as [|? ? Hs Hh]; subst. constructor; auto.
      destruct rest as [|e2 rest2]; simpl.
      * constructor. unfold count_ge. lia.
      * destruct (Nat.leb_spec (snd e2) (snd e)); constructor.
        -- unfold count_ge. lia.
        -- now inversion Hh.
Qed.

Lemma sort_desc_sorted (t : list (cell * nat)) : Sorted count_ge (sort_desc t).
Proof.
  induction t as [|e rest IH]; simpl.
  - constructor.
  - now apply insert_desc_sorted.
Qed.

Lemma total_perm (t t' : list (cell * nat)) :
  Permutation t t' -> total t = total t'.
Proof.
  induction 1; simpl; lia.
Qed.

(** ** What [value_counts] returns *)

Lemma value_counts_spec (c : column) :
  let t := value_counts c in
  NoDup (map fst t) /\
  (forall k n, In (k, n) t -> n = occurrences (counted c) k /\ (1 <= n)%nat) /\
  (forall k, In k (map fst t) <-> In k (counted c)) /\
  total t = List.length (counted c) /\
  Sorted count_ge t.
Proof.
  unfold value_counts, count_values. rewrite count_values_canon.
  fold (counted c).
  destruct (fold_tally (counted c) []) as (Hc & Hk & Hn & Ht & Hp).
  set (u := fold_left (fun t k => tally k t) (counted c) []) in *.
  pose proof (sort_desc_perm u) as P.
  assert (Hnd : NoDup (map fst u)) by (apply Hn; constructor).
  repeat split.
  - eapply Permutation_NoDup; [|exact Hnd]. now apply Permutation_map.
  - apply Permutation_sym in P. apply (Permutation_in _ P) in H.
    rewrite <- (NoDup_recorded_count u k n Hnd H). now rewrite Hc.
  - apply Permutation_sym in P. apply (Permutation_in _ P) in H.
    specialize (Hp (Forall_nil _)). rewrite Forall_forall in Hp.
    exact (Hp _ H).
  - intros H. apply (Permutation_in _ (Permutation_map fst (Permutation_sym P))) in H.
    apply Hk in H. simpl in H. tauto.
  - intros H. apply (Permutation_in _ (Permutation_map fst P)).
    apply Hk. now left.
  - rewrite <- (total_perm _ _ P), Ht. reflexivity.
  - apply sort_desc_sorted.
Qed.

(** ** Rows and masks *)

Lemma lookup_boolean_index (df : DataFrame) (mask : list bool) (k : string) :
  lookup k (boolean_index df mask) = option_map (select mask) (lookup k df).
Proof.
  induction df as [|[k' c] rest IH]; simpl; auto.
  destruct (String.eqb k k'); auto.
Qed.

Lemma subset_of_ok (df : DataFrame) (g : string) (d : column) :
  lookup diagnosis df = Some d ->
  subset_of df g = ok (boolean_index df (eq_mask d (Str g))).
Proof.
  intros H. unfold subset_of, getitem. now rewrite H.
Qed.

Lemma select_cons {A : Type} (b : bool) (mask : list bool) (x : A) (l : list A) :
  select (b :: mask) (x :: l) = if b then x :: select mask l else select mask l.
Proof. unfold select. simpl. now destruct b. Qed.

(** The values counted in the rows of a group are the values of the rows
    that carry the label of the group. *)
Lemma counted_select (g : string) (d c : column) (p : cell -> bool) :
  List.length (filter p (counted (select (eq_mask d (Str g)) c)))
  = List.length
      (filter (fun r => has_label g (fst r) &&
                        match snd r with
                        | Some v => p (canon v)
                        | None => false
                        end)
              (combine d c)).
Proof.
  revert c. induction d as [|l d IH]; intros [|x c]; try reflexivity.
  change (eq_mask (l :: d) (Str g)) with (has_label g l :: eq_mask d (Str g)).
  rewrite select_cons. simpl combine. simpl filter. simpl fst. simpl snd.
  destruct (has_label g l); simpl; [|apply IH].
  destruct x as [v|]; simpl; [|apply IH].
  unfold counted in *. destruct (p (canon v)); simpl; now rewrite IH.
Qed.

Lemma occurrences_keys (ks : list cell) (x : cell) :
  NoDup ks ->
  fold_right (fun k s => ((if cell_eq_dec x k then 1 else 0) + s)%nat) 0%nat ks
  = if in_keys ks x then 1%nat else 0%nat.
Proof.
  unfold in_keys. induction ks as [|k ks IH]; intros Hnd; simpl; auto.
  inversion Hnd as [|? ? Hnin Hnd']; subst. rewrite (IH Hnd').
  destruct (cell_eq_dec x k) as [->|Hne].
  - destruct (cell_eq_dec k k); [|congruence].
    destruct (in_dec cell_eq_dec k ks); [contradiction|]. reflexivity.
  - destruct (cell_eq_dec k x); [congruence|].
    destruct (in_dec cell_eq_dec x ks); reflexivity.
Qed.

(** The values of [l] that fall on distinct keys, counted key by key. *)
Lemma filter_in_keys (ks l : list cell) :
  NoDup ks ->
  List.length (filter (in_keys ks) l)
  = fold_right (fun k s => (occurrences l k + s)%nat) 0%nat ks.
Proof.
  intros Hnd. induction l as [|x l IH].
  - simpl. clear Hnd. induction ks; simpl; auto.
  - assert (E : fold_right (fun k s => (occurrences (x :: l) k + s)%nat) 0%nat ks
                = (fold_right (fun k s => ((if cell_eq_dec x k then 1 else 0) + s)%nat) 0%nat ks
                   + fold_right (fun k s => (occurrences l k + s)%nat) 0%nat ks)%nat).
    { clear. induction ks as [|k ks IH]; [reflexivity|].
      cbn [fold_right]. rewrite IH. unfold occurrences. simpl.
      destruct (cell_eq_dec x k); lia. }
    rewrite E, (occurrences_keys ks x Hnd), <- IH. simpl filter.
    destruct (in_keys ks x); reflexivity.
Qed.

Lemma total_occurrences (l : list cell) (t : list (cell * nat)) :
  (forall k n, In (k, n) t -> n = occurrences l k) ->
  total t = fold_right (fun k s => (occurrences l k + s)%nat) 0%nat (map fst t).
Proof.
  induction t as [|[k n] rest IH]; simpl; intros H; [reflexivity|].
  rewrite <- IH by (intros; apply H; now right).
  now rewrite (H k n) by now left.
Qed.

Lemma In_firstn {A : Type} (n : nat) (l : list A) (x : A) :
  In x (firstn n l) -> In x l.
Proof.
  intros H. rewrite <- (firstn_skipn n l). apply in_or_app. now left.
Qed.

Lemma NoDup_firstn {A : Type} (n : nat) (l : list A) :
  NoDup l -> NoDup (firstn n l).
Proof.
  intros H. rewrite <- (firstn_skipn n l) in H. now apply NoDup_app_remove_r in H.
Qed.

(** The pie and the map on a table that has the two columns they read. *)
Lemma country_tables (df : DataFrame) (d c : column) :
  lookup diagnosis df = Some d ->
  lookup "Country" df = Some c ->
  let diagnosed := select (eq_mask d (Str "Yes")) c in
  exists dd,
    diagnosed_df df = ok dd /\
    top_countries dd = ok (head 10 (value_counts diagnosed)) /\
    country_counts dd = ok (value_counts diagnosed).
Proof.
  intros Hd Hc diagnosed. exists (boolean_index df (eq_mask d (Str "Yes"))).
  split; [now apply subset_of_ok|].
  unfold top_countries, country_counts, getitem.
  rewrite lookup_boolean_index, Hc. simpl. auto.
Qed.

Lemma diagnosed_rows_occurrences (d c : column) (k : cell) :
  diagnosed_rows d c k
  = occurrences (counted (select (eq_mask d (Str "Yes")) c)) k.
Proof.
  unfold diagnosed_rows.
  change (filter (diagnosed_in [k]) (combine d c))
    with (filter (fun r => has_label "Yes" (fst r) &&
                           match snd r with
                           | Some v => in_keys [k] (canon v)
                           | None => false
                           end) (combine d c)).
  rewrite <- (counted_select "Yes" d c (in_keys [k])).
  rewrite filter_in_keys by (repeat constructor; intros []).
  simpl. lia.
Qed.

Lemma sorted_split (l1 l2 : list (cell * nat)) :
  StronglySorted count_ge (l1 ++ l2) ->
  forall a b, In a l1 -> In b l2 -> count_ge a b.
Proof.
  induction l1 as [|x l1 IH]; simpl; intros H a b Ha Hb; [contradiction|].
  inversion H as [|? ? Hs Hall]; subst.
  destruct Ha as [<-|Ha].
  - rewrite Forall_forall in Hall. apply Hall. apply in_or_app. now right.
  - now apply IH.
Qed.

Lemma count_ge_trans : Relations_1.Transitive count_ge.
Proof. intros a b c. unfold count_ge. lia. Qed.

(** C7: the table behind the pie holds the most frequent countries of
    the diagnosed subjects: it has 10 rows when they come from more than
    10 distinct countries and one row per country otherwise, never more
    than 10; its countries are distinct; each row holds a country of a
    diagnosed subject with the number of rows labelled "Yes" of that
    country; no country left out has more such rows than a country kept;
    and the counts add up to the number of rows labelled "Yes" whose
    country is one of its rows. *)
Theorem top_countries_total (df : DataFrame) (d c : column) :
  lookup diagnosis df = Some d ->
  lookup "Country" df = Some c ->
  let countries := counted (select (eq_mask d (Str "Yes")) c) in
  exists dd top,
    diagnosed_df df = ok dd /\
    top_countries dd = ok top /\
    (List.length top <= 10)%nat /\
    List.length top = Nat.min 10 (List.length (nodup cell_eq_dec countries)) /\
    NoDup (map fst top) /\
    (forall k n, In (k, n) top ->
                 In k countries /\ n = diagnosed_rows d c k /\ (1 <= n)%nat) /\
    (forall k n k', In (k, n) top -> ~ In k' (map fst top) ->
                    (diagnosed_rows d c k' <= n)%nat) /\
    total top
    = List.length (filter (diagnosed_in (map fst top)) (combine d c)).
Proof.
  intros Hd Hc countries.
  destruct (country_tables df d c Hd Hc) as (dd & Hdd & Htop & _).
  set (diagnosed := select (eq_mask d (Str "Yes")) c) in *.
  destruct (value_counts_spec diagnosed) as (Hnd & Hcnt & Hkeys & _ & Hsorted).
  fold countries in Hcnt, Hkeys.
  set (all := value_counts diagnosed) in *.
  assert (Hlen : List.length all = List.length (nodup cell_eq_dec countries)).
  { rewrite <- (length_map fst). apply Permutation_length.
    apply NoDup_Permutation; auto using NoDup_nodup.
    intros k. rewrite Hkeys. symmetry. apply nodup_In. }
  assert (Hss : StronglySorted count_ge (firstn 10 all ++ skipn 10 all)).
  { rewrite firstn_skipn. apply Sorted_StronglySorted; auto. exact count_ge_trans. }
  exists dd, (head 10 all). unfold head.
  split; [exact Hdd|]. split; [exact Htop|].
  split; [apply firstn_le_length|].
  split; [now rewrite length_firstn, Hlen|].
  split; [rewrite <- firstn_map; now apply NoDup_firstn|].
  split; [|split].
  - intros k n Hin. apply In_firstn in Hin.
    destruct (Hcnt k n Hin) as (En & Hpos).
    split; [apply Hkeys; now apply (in_map fst) in Hin|].
    split; [now rewrite diagnosed_rows_occurrences | exact Hpos].
  - intros k n k' Hin Hout. rewrite diagnosed_rows_occurrences.
    change (occurrences countries k' <= n)%nat.
    destruct (in_dec cell_eq_dec k' (map fst all)) as [Hk'|Hk'].
    + apply in_map_iff in Hk' as ([k0 n'] & E & Hin'). simpl in E. subst k0.
      rewrite <- (proj1 (Hcnt k' n' Hin')).
      rewrite <- (firstn_skipn 10 all) in Hin'.
      apply in_app_or in Hin' as [Hin'|Hin'].
      * exfalso. apply Hout. now apply (in_map fst) in Hin'.
      * exact (sorted_split _ _ Hss (k, n) (k', n') Hin Hin').
    + unfold occurrences.
      rewrite (proj1 (count_occ_not_In cell_eq_dec countries k'));
        [lia | intros Hc'; apply Hk'; now apply Hkeys].
  - rewrite (total_occurrences countries).
    + rewrite <- filter_in_keys.
      * unfold countries, diagnosed. rewrite counted_select. reflexivity.
      * rewrite <- firstn_map. now apply NoDup_firstn.
    + intros k n Hin. apply In_firstn in Hin. now apply Hcnt.
Qed.

Lemma top_countries_total_witness :
  let countries :=
    counted (select (eq_mask [yes; no; yes; no] (Str "Yes"))
               [Some (Str "Canada"); Some (Str "Brazil"); Some (Str "Canada");
                Some (Str "India")]) in
  exists dd top,
    diagnosed_df (loaded ex_full) = ok dd /\
    top_countries dd = ok top /\
    (List.length top <= 10)%nat /\
    List.length top = Nat.min 10 (List.length (nodup cell_eq_dec countries)) /\
    NoDup (map fst top) /\
    (forall k n, In (k, n) top ->
                 In k countries /\
                 n = diagnosed_rows [yes; no; yes; no]
                       [Some (Str "Canada"); Some (Str "Brazil"); Some (Str "Canada");
                        Some (Str "India")] k /\
                 (1 <= n)%nat) /\
    (forall k n k', In (k, n) top -> ~ In k' (map fst top) ->
                    (diagnosed_rows [yes; no; yes; no]
                       [Some (Str "Canada"); Some (Str "Brazil"); Some (Str "Canada");
                        Some (Str "India")] k' <= n)%nat) /\
    total top
    = List.length
        (filter (diagnosed_in (map fst top))
           (combine [yes; no; yes; no]
              [Some (Str "Canada"); Some (Str "Brazil"); Some (Str "Canada");
               Some (Str "India")])).
Proof.
  apply (top_countries_total (loaded ex_full)); reflexivity.
Defined.

(** ** The pie against the map *)

(** C10: the table behind the pie is the first 10 rows of the table
    behind the map; that table is in decreasing order of count, so no row
    left out has a larger count than a row kept; it has one row per
    distinct country of the diagnosed subjects, holding the number of
    their rows; with at most 10 distinct countries the two tables are
    equal. *)
Theorem top_countries_prefix (df : DataFrame) (d c : column) :
  lookup diagnosis df = Some d ->
  lookup "Country" df = Some c ->
  let countries := counted (select (eq_mask d (Str "Yes")) c) in
  exists dd top all,
    diagnosed_df df = ok dd /\
    top_countries dd = ok top /\
    country_counts dd = ok all /\
    top = firstn 10 all /\
    Sorted count_ge all /\
    (forall e e', In e top -> In e' (skipn 10 all) -> (snd e' <= snd e)%nat) /\
    NoDup (map fst all) /\
    (forall k, In k (map fst all) <-> In k countries) /\
    (forall k n, In (k, n) all -> n = occurrences countries k) /\
    List.length all = List.length (nodup cell_eq_dec countries) /\
    ((List.length (nodup cell_eq_dec countries) <= 10)%nat -> top = all).
Proof.
  intros Hd Hc countries.
  destruct (country_tables df d c Hd Hc) as (dd & Hdd & Htop & Hall).
  set (diagnosed := select (eq_mask d (Str "Yes")) c) in *.
  destruct (value_counts_spec diagnosed) as (Hnd & Hcnt & Hkeys & _ & Hsorted).
  fold countries in Hcnt, Hkeys.
  assert (Hlen : List.length (value_counts diagnosed)
                 = List.length (nodup cell_eq_dec countries)).
  { rewrite <- (length_map fst). apply Permutation_length.
    apply NoDup_Permutation; auto using NoDup_nodup.
    intros k. rewrite Hkeys. symmetry. apply nodup_In. }
  exists dd, (head 10 (value_counts diagnosed)), (value_counts diagnosed).
  repeat split; auto.
  - intros e e' He He'. apply (sorted_split (firstn 10 (value_counts diagnosed))
                                 (skipn 10 (value_counts diagnosed))); auto.
    rewrite firstn_skipn. apply Sorted_StronglySorted; auto.
    exact count_ge_trans.
  - now apply Hkeys.
  - now apply Hkeys.
  - intros k n Hin. now apply Hcnt.
  - intros Hle. unfold head. apply firstn_all2. now rewrite Hlen.
Qed.

Lemma top_countries_prefix_witness :
  let countries :=
    counted (select (eq_mask [yes; no; yes; no] (Str "Yes"))
               [Some (Str "Canada"); Some (Str "Brazil"); Some (Str "Canada");
                Some (Str "India")]) in
  exists dd top all,
    diagnosed_df (loaded ex_full) = ok dd /\
    top_countries dd = ok top /\
    country_counts dd = ok all /\
    top = firstn 10 all /\
    Sorted count_ge all /\
    (forall e e', In e top -> In e' (skipn 10 all) -> (snd e' <= snd e)%nat) /\
    NoDup (map fst all) /\
    (forall k, In k (map fst all) <-> In k countries) /\
    (forall k n, In (k, n) all -> n = occurrences countries k) /\
    List.length all = List.length (nodup cell_eq_dec countries) /\
    ((List.length (nodup cell_eq_dec countries) <= 10)%nat -> top = all).
Proof.
  apply (top_countries_prefix (loaded ex_full)); reflexivity.
Defined.

(** ** The lifestyle radar *)

Lemma mapM_nth {A B : Type} (f : A -> result B) (l : list A) (bs : list B) :
  mapM f l = ok bs ->
  forall j a, nth_error l j = Some a ->
    exists b, f a = ok b /\ nth_error bs j = Some b.
Proof.
  revert bs. induction l as [|x l IH]; intros bs H j a Hj.
  - destruct j; discriminate.
  - simpl in H. apply bind_ok in H as (b0 & Hb0 & H).
    apply bind_ok in H as (bs' & Hbs & H). injection H as <-.
    destruct j as [|j]; simpl in *.
    + injection Hj as <-. eauto.
    + eapply IH; eauto.
Qed.

Lemma radar_data_In (df : DataFrame) (rd : list (string * list (option Q)))
      (g : string) (vs : list (option Q)) :
  radar_data df = ok rd -> In (g, vs) rd -> radar_counts df g = ok vs.
Proof.
  unfold radar_data. intros H Hin.
  apply bind_ok in H as (y & Hy & H). apply bind_ok in H as (n & Hn & H).
  injection H as <-. simpl in Hin.
  destruct Hin as [E|[E|[]]]; injection E as <- <-; assumption.
Qed.

Lemma fold_qmax (l : list Q) (x : Q) :
  In (fold_left qmax l x) (x :: l) /\
  (forall y, In y (x :: l) -> (y <= fold_left qmax l x)%Q).
Proof.
  revert x. induction l as [|z l IH]; intros x; simpl.
  - split; [now left|]. intros y [<-|[]]. apply Qle_refl.
  - destruct (IH (qmax x z)) as (Hin & Hmax). split.
    + simpl in Hin. destruct Hin as [E|Hin]; [|now right; right].
      rewrite <- E. unfold qmax. destruct (Qle_bool x z); auto.
    + assert (Hx : (x <= qmax x z)%Q /\ (z <= qmax x z)%Q).
      { unfold qmax. destruct (Qle_bool x z) eqn:E.
        - apply Qle_bool_iff in E. split; [exact E | apply Qle_refl].
        - split; [apply Qle_refl|].
          apply Qlt_le_weak, Qnot_le_lt. intros Hle.
          apply Qle_bool_iff in Hle. congruence. }
      intros y [<-|[<-|Hy]].
      * eapply Qle_trans; [apply Hx | apply Hmax; now left].
      * eapply Qle_trans; [apply Hx | apply Hmax; now left].
      * apply Hmax. now right.
Qed.

Lemma Qnat_le (a b : nat) : (a <= b)%nat -> (Qnat a <= Qnat b)%Q.
Proof. intros H. unfold Qnat. rewrite <- Zle_Qle. lia. Qed.

Lemma Qnat_pos (b : nat) : (0 < b)%nat -> (0 < Qnat b)%Q.
Proof.
  intros H. unfold Qnat. change 0%Q with (inject_Z 0). rewrite <- Zlt_Qlt. lia.
Qed.

Lemma share_bounds (l : list cell) (k : cell) :
  l <> [] -> (0 <= share l k <= 1)%Q.
Proof.
  intros Hl. unfold share.
  assert (Hpos : (0 < Qnat (List.length l))%Q).
  { apply Qnat_pos. destruct l; [congruence | simpl; lia]. }
  split.
  - apply Qle_shift_div_l; auto. rewrite Qmult_0_l.
    change 0%Q with (Qnat 0). apply Qnat_le. lia.
  - apply Qle_shift_div_r; auto. rewrite Qmult_1_l.
    apply Qnat_le. unfold occurrences. apply count_occ_bound.
Qed.

Lemma occurrences_all (l : list cell) (k : cell) :
  (forall a, In a l -> a = k) -> occurrences l k = List.length l.
Proof.
  unfold occurrences. induction l as [|x l IH]; simpl; intros H; auto.
  destruct (cell_eq_dec x k) as [_|Hne].
  - f_equal. apply IH. intros a Ha. apply H. now right.
  - exfalso. apply Hne, H. now left.
Qed.

(** One radar value, from the column of the whole table. *)
Lemma radar_value_select (df : DataFrame) (mask : list bool) (col : string) (c : column) :
  lookup col df = Some c ->
  radar_value (boolean_index df mask) col
  = ok (series_max (map snd (value_counts_normalized (select mask c)))).
Proof.
  intros H. unfold radar_value, getitem. rewrite lookup_boolean_index, H.
  reflexivity.
Qed.

(** The largest share among the values recorded in a column. *)
Lemma series_max_share (c : column) :
  counted c <> [] ->
  exists v,
    series_max (map snd (value_counts_normalized c)) = Some v /\
    (exists k, In k (counted c) /\ v = share (counted c) k) /\
    (forall k, In k (counted c) -> (share (counted c) k <= v)%Q).
Proof.
  intros Hne.
  destruct (value_counts_spec c) as (Hnd & Hcnt & Hkeys & Htot & _).
  unfold value_counts_normalized. rewrite map_map. simpl. rewrite Htot.
  set (t := value_counts c) in *.
  set (f := fun e : cell * nat => (Qnat (snd e) / Qnat (List.length (counted c)))%Q).
  assert (Hshare : forall k n, In (k, n) t -> f (k, n) = share (counted c) k).
  { intros k n Hin. unfold f, share. simpl. now rewrite (proj1 (Hcnt k n Hin)). }
  destruct t as [|e0 t'] eqn:Et.
  - exfalso. destruct (counted c) as [|k l]; [congruence|].
    apply (proj2 (Hkeys k)). now left.
  - simpl map. simpl series_max.
    destruct (fold_qmax (map f t') (f e0)) as (Hin & Hmax).
    eexists. split; [reflexivity|]. split.
    + change (f e0 :: map f t') with (map f (e0 :: t')) in Hin.
      apply in_map_iff in Hin as ([k n] & E & Hin').
      exists k. split.
      * apply Hkeys. now apply (in_map fst) in Hin'.
      * rewrite <- E. now apply Hshare.
    + intros k Hk. apply Hkeys in Hk. apply in_map_iff in Hk as ([k' n] & E & Hin').
      simpl in E. subst k'. rewrite <- (Hshare k n Hin').
      apply Hmax. change (f e0 :: map f t') with (map f (e0 :: t')).
      now apply in_map.
Qed.

(** Without a recorded value there is nothing to take the largest share
    of. *)
Lemma series_max_unrecorded (c : column) :
  counted c = [] ->
  series_max (map snd (value_counts_normalized c)) = None.
Proof.
  intros He. destruct (value_counts_spec c) as (_ & _ & Hkeys & _).
  unfold value_counts_normalized.
  destruct (value_counts c) as [|e t]; [reflexivity|].
  exfalso. rewrite He in Hkeys. apply (proj1 (Hkeys (fst e))). now left.
Qed.

(** C3, amended: for each diagnosis group and each lifestyle indicator
    with at least one recorded value among the rows of the group, the
    radar value lies in [0,1] and is the largest, over the distinct
    values of the indicator in the group, of the count of the value
    divided by the number of recorded values; with a single distinct
    value it is 1.  When the group has no recorded value of the
    indicator, whether or not it has rows, the radar value is
    undefined. *)
Theorem radar_value_max_share
        (df : DataFrame) (rd : list (string * list (option Q))) (g : string)
        (vs : list (option Q)) (j : nat) (col : string) (d c : column) :
  radar_data df = ok rd ->
  In (g, vs) rd ->
  nth_error lifestyle_cols j = Some col ->
  lookup diagnosis df = Some d ->
  lookup col df = Some c ->
  let values := counted (select (eq_mask d (Str g)) c) in
  (values <> [] ->
   exists v,
     nth_error vs j = Some (Some v) /\
     (0 <= v <= 1)%Q /\
     (exists k, In k values /\ v = share values k) /\
     (forall k, In k values -> (share values k <= v)%Q) /\
     ((forall a b, In a values -> In b values -> a = b) -> (v == 1)%Q)) /\
  (values = [] -> nth_error vs j = Some None).
Proof.
  intros Hrd Hin Hcol Hd Hc values.
  apply (radar_data_In df rd g vs Hrd) in Hin.
  unfold radar_counts in Hin. rewrite (subset_of_ok df g d Hd) in Hin.
  cbn [bind] in Hin.
  destruct (mapM_nth _ _ _ Hin j col Hcol) as (b & Hb & Hj).
  rewrite (radar_value_select df _ col c Hc) in Hb. injection Hb as <-.
  split.
  - intros Hne.
    destruct (series_max_share (select (eq_mask d (Str g)) c) Hne)
      as (v & Hv & (k & Hk & Ek) & Hmax).
    fold values in Hk, Ek, Hmax.
    exists v. split; [now rewrite Hj, Hv|].
    split; [rewrite Ek; now apply share_bounds|].
    split; [now exists k|]. split; [exact Hmax|].
    intros Hone. rewrite Ek. unfold share.
    rewrite occurrences_all by (intros a Ha; now apply Hone).
    apply Qmult_inv_r. intros E.
    assert (Hpos : (0 < Qnat (List.length values))%Q).
    { apply Qnat_pos. destruct values; [congruence | simpl; lia]. }
    rewrite E in Hpos. exact (Qlt_irrefl _ Hpos).
  - intros He. rewrite Hj. f_equal. now apply series_max_unrecorded.
Qed.

Lemma radar_value_max_share_witness :
  (exists v,
      nth_error [Some (2 # 2); Some (1 # 2); Some (2 # 2); Some (2 # 2); Some (1 # 2)]%Q 0
      = Some (Some v) /\
      (0 <= v <= 1)%Q /\
      (exists k, In k [Str "Never"; Str "Never"] /\ v = share [Str "Never"; Str "Never"] k) /\
      (forall k, In k [Str "Never"; Str "Never"] ->
                 (share [Str "Never"; Str "Never"] k <= v)%Q) /\
      ((forall a b, In a [Str "Never"; Str "Never"] -> In b [Str "Never"; Str "Never"] ->
                    a = b) -> (v == 1)%Q)) /\
  nth_error [None; Some (1 # 1); Some (1 # 1); Some (1 # 1); Some (1 # 1)]%Q 0 = Some None.
Proof.
  split.
  - apply (radar_value_max_share (loaded ex_full)
             [("Yes", [Some (2 # 2); Some (1 # 2); Some (2 # 2); Some (2 # 2); Some (1 # 2)]%Q);
              ("No", [Some (1 # 2); Some (1 # 2); Some (1 # 2); Some (1 # 2); Some (1 # 2)]%Q)]
             "Yes" _ 0%nat "Smoking Status" [yes; no; yes; no]
             [Some (Str "Never"); Some (Str "Former"); Some (Str "Never");
              Some (Str "Current")]).
    + reflexivity.
    + left. reflexivity.
    + reflexivity.
    + reflexivity.
    + reflexivity.
    + discriminate.
  - apply (radar_value_max_share (loaded ex_unrecorded)
             [("Yes", [None; Some (1 # 1); Some (1 # 1); Some (1 # 1); Some (1 # 1)]%Q);
              ("No", [Some (1 # 1); Some (1 # 1); Some (1 # 1); Some (1 # 1); Some (1 # 1)]%Q)]
             "Yes" _ 0%nat "Smoking Status" [yes; no] [None; Some (Str "Never")]).
    + reflexivity.
    + left. reflexivity.
    + reflexivity.
    + reflexivity.
    + reflexivity.
    + reflexivity.
Defined.

(** C3, as stated, fails: a group that has a row, but no recorded value
    of an indicator, gets a missing radar value for it. *)
Lemma radar_value_unrecorded :
  exists df rd vs,
    load_data (Csv ex_unrecorded) = ok df /\
    radar_data df = ok rd /\
    In ("Yes", vs) rd /\
    select (eq_mask [yes; no] (Str "Yes")) [yes; no] = [yes] /\
    nth_error lifestyle_cols 0 = Some "Smoking Status" /\
    nth_error vs 0 = Some None.
Proof.
  eexists. eexists. eexists.
  split; [reflexivity|]. split; [reflexivity|].
  split; [left; reflexivity|]. repeat split.
Qed.

(** ** The correlation matrix *)

Lemma Qsum_ext {A : Type} (f g : A -> Q) (l : list A) :
  (forall a, In a l -> (f a == g a)%Q) ->
  (Qsum (map f l) == Qsum (map g l))%Q.
Proof.
  induction l as [|a l IH]; simpl; intros H; [reflexivity|].
  rewrite (H a) by now left. rewrite IH; [reflexivity|].
  intros b Hb. apply H. now right.
Qed.

Lemma Qsum_nonneg (l : list Q) :
  (forall a, In a l -> (0 <= a)%Q) -> (0 <= Qsum l)%Q.
Proof.
  induction l as [|a l IH]; simpl; intros H; [apply Qle_refl|].
  assert (0 <= a)%Q by (apply H; now left).
  assert (0 <= Qsum l)%Q by (apply IH; intros; apply H; now right).
  Lqa.lra.
Qed.

Lemma ssq_nonneg (l : list Q) : (0 <= ssq l)%Q.
Proof.
  unfold ssq. apply Qsum_nonneg. intros a Ha.
  apply in_map_iff in Ha as (x & <- & _).
  set (y := (x - mean l)%Q). clearbody y.
  destruct y as [n d]. unfold Qle, Qmult. simpl. nia.
Qed.

Lemma complete_pairs_swap (x y : list (option Q)) :
  complete_pairs y x = map swap (complete_pairs x y).
Proof.
  unfold complete_pairs. revert y.
  induction x as [|a x IH]; intros [|b y]; try reflexivity.
  simpl. rewrite IH. now destruct a, b.
Qed.

Lemma complete_pairs_diag (x : list (option Q)) :
  complete_pairs x x = map (fun a => (a, a)) (dropna x).
Proof.
  unfold complete_pairs, dropna. induction x as [|a x IH]; [reflexivity|].
  simpl. rewrite IH. now destruct a.
Qed.

Lemma cov_sum_swap (p : list (Q * Q)) : (cov_sum (map swap p) == cov_sum p)%Q.
Proof.
  unfold cov_sum. rewrite !map_map. simpl.
  apply Qsum_ext. intros a _.
  change ((snd a - mean (map snd p)) * (fst a - mean (map fst p))
          == (fst a - mean (map fst p)) * (snd a - mean (map snd p)))%Q.
  ring.
Qed.

Lemma cov_sum_diag (l : list Q) : cov_sum (map (fun a => (a, a)) l) = ssq l.
Proof.
  unfold cov_sum, ssq. rewrite !map_map. simpl. now rewrite map_id.
Qed.

Lemma pearson_sym (x y : list (option Q)) : pearson x y = pearson y x.
Proof.
  unfold pearson. rewrite (complete_pairs_swap x y).
  set (p := complete_pairs x y).
  rewrite !map_map. simpl.
  change (map (fun a => snd a) p) with (map snd p).
  change (map (fun a => fst a) p) with (map fst p).
  assert (Ed : (ssq (map snd p) * ssq (map fst p) == ssq (map fst p) * ssq (map snd p))%Q)
    by ring.
  assert (Eb : Qeq_bool (ssq (map snd p) * ssq (map fst p)) 0
               = Qeq_bool (ssq (map fst p) * ssq (map snd p)) 0).
  { destruct (Qeq_bool (ssq (map fst p) * ssq (map snd p)) 0) eqn:E.
    - apply Qeq_bool_iff. apply Qeq_bool_iff in E. now rewrite Ed.
    - destruct (Qeq_bool (ssq (map snd p) * ssq (map fst p)) 0) eqn:E'; auto.
      apply Qeq_bool_iff in E'. rewrite Ed in E'. apply Qeq_bool_iff in E'. congruence. }
  rewrite Eb. clear Eb.
  destruct (Qeq_bool (ssq (map fst p) * ssq (map snd p)) 0); auto.
  rewrite (Qeq_eqR _ _ (cov_sum_swap p)), (Qeq_eqR _ _ Ed). reflexivity.
Qed.

Lemma Q2R_zero : Q2R 0 = 0%R.
Proof. unfold Q2R. simpl. lra. Qed.

Lemma pearson_diag (x : list (option Q)) (r : R) :
  pearson x x = Some r -> r = 1%R.
Proof.
  unfold pearson. rewrite complete_pairs_diag, cov_sum_diag, !map_map. simpl.
  rewrite map_id. set (s := ssq (dropna x)).
  destruct (Qeq_bool (s * s) 0) eqn:E; [discriminate|].
  intros H. injection H as <-.
  assert (Hs : (0 <= Q2R s)%R).
  { rewrite <- Q2R_zero. apply Qle_Rle. apply ssq_nonneg. }
  assert (Hnz : Q2R s <> 0%R).
  { intros Hz. apply Qeq_bool_neq in E. apply E.
    rewrite <- Q2R_zero in Hz. apply eqR_Qeq in Hz. rewrite Hz. ring. }
  rewrite Q2R_mult, sqrt_square by exact Hs. now field.
Qed.

Lemma entry_corr (cols : list (list (option Q))) (i j : nat) :
  entry (corr cols) i j
  = match nth_error cols i, nth_error cols j with
    | Some x, Some y => Some (pearson x y)
    | _, _ => None
    end.
Proof.
  unfold entry, corr. rewrite nth_error_map.
  destruct (nth_error cols i) as [x|]; simpl; auto.
  rewrite nth_error_map. now destruct (nth_error cols j).
Qed.

Lemma corr_matrix_ok (df : DataFrame) (m : list (list (option R))) :
  corr_matrix df = ok m ->
  exists cols, List.length cols = 5%nat /\ m = corr cols.
Proof.
  unfold corr_matrix. intros H.
  apply bind_ok in H as (cs & Hcs & H). apply bind_ok in H as (nums & Hn & H).
  injection H as <-. exists nums. split; auto.
  assert (Hlen : forall A B (f : A -> result B) l bs,
             mapM f l = ok bs -> List.length bs = List.length l).
  { intros A B f l. induction l as [|a l IH]; intros bs Hm; simpl in Hm.
    - now injection Hm as <-.
    - apply bind_ok in Hm as (b & _ & Hm). apply bind_ok in Hm as (bs' & Hbs & Hm).
      injection Hm as <-. simpl. f_equal. now apply IH. }
  rewrite (Hlen _ _ _ _ _ Hn). unfold getitems in Hcs. now rewrite (Hlen _ _ _ _ _ Hcs).
Qed.

Lemma to_numeric_numbers (e : exn) (c : column) (x : list (option Q)) :
  to_numeric e c = ok x -> dropna x = numbers c.
Proof.
  unfold to_numeric, dropna, numbers. revert x.
  induction c as [|a c IH]; simpl; intros x H.
  - now injection H as <-.
  - apply bind_ok in H as (b & Hb & H). apply bind_ok in H as (bs & Hbs & H).
    injection H as <-. simpl. rewrite (IH bs Hbs).
    destruct a as [[q|s]|]; try discriminate; now injection Hb as <-.
Qed.

Lemma Qsum_const (l : list Q) (a0 : Q) :
  (forall a, In a l -> (a == a0)%Q) ->
  (Qsum l == Qnat (List.length l) * a0)%Q.
Proof.
  induction l as [|a l IH]; simpl; intros H.
  - unfold Qnat. simpl. ring.
  - rewrite (H a) by now left. rewrite IH by (intros; apply H; now right).
    change (S (List.length l)) with (1 + List.length l)%nat.
    unfold Qnat. rewrite Nat2Z.inj_add, inject_Z_plus. simpl. ring.
Qed.

Lemma Qsum_zero_terms (l : list Q) :
  (forall a, In a l -> (0 <= a)%Q) -> (Qsum l == 0)%Q ->
  forall a, In a l -> (a == 0)%Q.
Proof.
  induction l as [|x l IH]; simpl; intros Hpos Hz a Ha; [contradiction|].
  assert (Hx : (0 <= x)%Q) by (apply Hpos; now left).
  assert (Hl : (0 <= Qsum l)%Q) by (apply Qsum_nonneg; intros; apply Hpos; now right).
  destruct Ha as [<-|Ha].
  - Lqa.lra.
  - apply IH; auto. Lqa.lra.
Qed.

(** The sum of the squared deviations vanishes exactly for a feature
    without spread. *)
Lemma ssq_zero_iff (l : list Q) : (ssq l == 0)%Q <-> constant l.
Proof.
  unfold ssq, constant. split.
  - intros Hz.
    assert (Hm : forall a, In a l -> (a == mean l)%Q).
    { intros a Ha.
      assert (Hsq : ((a - mean l) * (a - mean l) == 0)%Q).
      { apply (Qsum_zero_terms (map (fun a => (a - mean l) * (a - mean l))%Q l)); auto.
        - intros y Hy. apply in_map_iff in Hy as (x & <- & _).
          destruct (x - mean l)%Q as [n d]. unfold Qle, Qmult. simpl. nia.
        - apply in_map_iff. now exists a. }
      apply Qmult_integral in Hsq. Lqa.lra. }
    intros a b Ha Hb. rewrite (Hm a Ha), (Hm b Hb). reflexivity.
  - intros Hc. destruct l as [|a0 l']; [reflexivity|].
    set (l := a0 :: l') in *.
    assert (Hall : forall a, In a l -> (a == a0)%Q).
    { intros a Ha. apply Hc; [exact Ha | now left]. }
    assert (Hmean : (mean l == a0)%Q).
    { unfold mean. rewrite (Qsum_const l a0 Hall).
      assert (Hn : ~ (Qnat (List.length l) == 0)%Q).
      { intros E. assert (Hp : (0 < Qnat (List.length l))%Q)
          by (apply Qnat_pos; simpl; lia).
        rewrite E in Hp. exact (Qlt_irrefl _ Hp). }
      field. exact Hn. }
    rewrite (Qsum_ext (fun a => (a - mean l) * (a - mean l))%Q (fun _ => 0%Q)).
    + clear. induction l as [|x l IH]; simpl; [reflexivity|]. rewrite IH. ring.
    + intros a Ha. rewrite (Hall a Ha), Hmean. ring.
Qed.

Lemma pearson_diag_cases (x : list (option Q)) :
  (constant (dropna x) -> pearson x x = None) /\
  (~ constant (dropna x) -> pearson x x = Some 1%R).
Proof.
  assert (Hp : pearson x x
               = if Qeq_bool (ssq (dropna x) * ssq (dropna x)) 0 then None
                 else Some (Q2R (ssq (dropna x))
                            / sqrt (Q2R (ssq (dropna x) * ssq (dropna x))))%R).
  { unfold pearson. rewrite complete_pairs_diag, cov_sum_diag, !map_map. simpl.
    now rewrite map_id. }
  split.
  - intros Hc. apply ssq_zero_iff in Hc. rewrite Hp.
    assert (E : Qeq_bool (ssq (dropna x) * ssq (dropna x)) 0 = true).
    { apply Qeq_bool_iff. rewrite Hc. ring. }
    now rewrite E.
  - intros Hn. destruct (pearson x x) as [r|] eqn:E.
    + now rewrite (pearson_diag x r E).
    + exfalso. apply Hn. apply ssq_zero_iff.
      rewrite Hp in E.
      destruct (Qeq_bool (ssq (dropna x) * ssq (dropna x)) 0) eqn:Eb; [|discriminate].
      apply Qeq_bool_iff in Eb. apply Qmult_integral in Eb. tauto.
Qed.

(** The diagonal entry of a feature is the coefficient of its numeric
    view with itself. *)
Lemma corr_matrix_diagonal (df : DataFrame) (m : list (list (option R)))
      (i : nat) (k : string) :
  corr_matrix df = ok m ->
  nth_error num_features i = Some k ->
  exists c x,
    lookup k df = Some c /\
    dropna x = numbers c /\
    entry m i i = Some (pearson x x).
Proof.
  unfold corr_matrix, getitems. intros H Hk.
  apply bind_ok in H as (cols & Hc & H). apply bind_ok in H as (nums & Hn & H).
  injection H as <-.
  destruct (mapM_nth _ _ _ Hc i k Hk) as (c & Hck & Hci).
  destruct (mapM_nth _ _ _ Hn i c Hci) as (x & Hx & Hxi).
  exists c, x. split; [now apply getitem_ok|].
  split; [now apply (to_numeric_numbers ValueError)|].
  rewrite entry_corr, Hxi. reflexivity.
Qed.

(** C8, amended: the correlation matrix over the five numeric features
    is symmetric, undefined entries included.  The diagonal entry of a
    feature is 1 exactly when its recorded values are not all equal; for
    a feature without spread (a constant column, a single row, no
    recorded value) it is undefined, although the matrix is computed.  So
    a diagonal entry that is defined is 1. *)
Theorem corr_matrix_symmetric (df : DataFrame) (m : list (list (option R))) :
  corr_matrix df = ok m ->
  List.length m = 5%nat /\
  (forall i j, entry m i j = entry m j i) /\
  (forall i r, entry m i i = Some (Some r) -> r = 1%R) /\
  (forall i k,
      nth_error num_features i = Some k ->
      exists c,
        lookup k df = Some c /\
        (~ constant (numbers c) -> entry m i i = Some (Some 1%R)) /\
        (constant (numbers c) -> entry m i i = Some None)).
Proof.
  intros H. pose proof H as H0.
  apply corr_matrix_ok in H as (cols & Hlen & ->).
  split; [unfold corr; now rewrite length_map|].
  split; [|split].
  - intros i j. rewrite !entry_corr.
    destruct (nth_error cols i), (nth_error cols j); auto.
    now rewrite pearson_sym.
  - intros i r. rewrite entry_corr.
    destruct (nth_error cols i) as [x|]; [|discriminate].
    intros E. injection E as E. now apply pearson_diag in E.
  - intros i k Hk.
    destruct (corr_matrix_diagonal df _ i k H0 Hk) as (c & x & Hc & Ex & He).
    exists c. split; [exact Hc|]. rewrite He, <- Ex.
    destruct (pearson_diag_cases x) as (Hconst & Hspread).
    split; intros Hx; f_equal; auto.
Qed.

(** The five numeric columns of the sample table. *)
Lemma corr_matrix_ex_full :
  corr_matrix (loaded ex_full)
  = ok (corr [[Some 55; Some 65; Some 95; Some 72];
              [Some (251 # 10); Some (302 # 10); Some 22; Some 27];
              [Some 12; Some 8; Some 16; Some 10];
              [Some 40; Some 82; Some 35; Some 77];
              [Some 1; Some 0; Some 1; Some 0]]%Q).
Proof. reflexivity. Qed.

Lemma corr_matrix_symmetric_witness :
  let m := corr [[Some 55; Some 65; Some 95; Some 72];
                 [Some (251 # 10); Some (302 # 10); Some 22; Some 27];
                 [Some 12; Some 8; Some 16; Some 10];
                 [Some 40; Some 82; Some 35; Some 77];
                 [Some 1; Some 0; Some 1; Some 0]]%Q in
  List.length m = 5%nat /\
  (forall i j, entry m i j = entry m j i) /\
  (forall i r, entry m i i = Some (Some r) -> r = 1%R) /\
  (forall i k,
      nth_error num_features i = Some k ->
      exists c,
        lookup k (loaded ex_full) = Some c /\
        (~ constant (numbers c) -> entry m i i = Some (Some 1%R)) /\
        (constant (numbers c) -> entry m i i = Some None)).
Proof.
  exact (corr_matrix_symmetric (loaded ex_full) _ corr_matrix_ex_full).
Defined.

(** C8, as stated, fails: with every subject diagnosed the matrix is
    computed and the run completes, yet the diagonal entry of the binary
    diagnosis is undefined, not 1. *)
Lemma corr_matrix_diagonal_undefined :
  exists m,
    corr_matrix (loaded ex_all_yes) = ok m /\
    outcome (main None (Csv ex_all_yes)) = ok tt /\
    nth_error num_features 4 = Some "Diagnosis_Binary" /\
    entry m 4 4 = Some None /\
    entry m 4 4 <> Some (Some 1%R).
Proof.
  eexists. split; [reflexivity|]. split; [reflexivity|]. split; [reflexivity|].
  assert (E : entry (corr [[Some 55; Some 65; Some 95; Some 72];
                           [Some (251 # 10); Some (302 # 10); Some 22; Some 27];
                           [Some 12; Some 8; Some 16; Some 10];
                           [Some 40; Some 82; Some 35; Some 77];
                           [Some 1; Some 1; Some 1; Some 1]]%Q) 4 4 = Some None).
  { rewrite entry_corr. cbn [nth_error]. reflexivity. }
  split; [exact E|]. rewrite E. discriminate.
Qed.

(** A feature with some spread correlates fully with itself. *)
Lemma pearson_diag_defined (x : list (option Q)) :
  Qeq_bool (ssq (dropna x) * ssq (dropna x)) 0 = false ->
  pearson x x = Some 1%R.
Proof.
  intros H. destruct (pearson x x) as [r|] eqn:E.
  - now rewrite (pearson_diag x r E).
  - unfold pearson in E.
    rewrite complete_pairs_diag, !map_map in E. simpl in E.
    rewrite map_id, H in E. discriminate.
Qed.

(** On the sample table every diagonal entry is defined. *)
Lemma corr_matrix_ex_full_diagonal (i : nat) :
  (i < 5)%nat ->
  exists m, corr_matrix (loaded ex_full) = ok m /\ entry m i i = Some (Some 1%R).
Proof.
  intros Hi. eexists. split; [exact corr_matrix_ex_full|].
  rewrite entry_corr.
  do 5 (destruct i as [|i];
        [cbn [nth_error]; f_equal; apply pearson_diag_defined; vm_compute; reflexivity|]).
  lia.
Qed.

(** A feature without spread has no coefficient, not even with itself:
    when every subject carries the same label, the last diagonal entry is
    missing. *)
Lemma corr_matrix_constant_feature :
  exists m,
    corr_matrix
      (loaded [("Age", [Some (Num 55); Some (Num 65)]);
               ("BMI", [Some (Num 24); Some (Num 31)]);
               ("Education Level", [Some (Num 12); Some (Num 9)]);
               ("Cognitive Test Score", [Some (Num 40); Some (Num 44)]);
               (diagnosis, [yes; yes])]) = ok m /\
    entry m 0 0 = Some (Some 1%R) /\
    entry m 4 4 = Some None.
Proof.
  eexists. split; [reflexivity|]. rewrite !entry_corr. cbn [nth_error]. split.
  - f_equal. apply pearson_diag_defined. vm_compute. reflexivity.
  - reflexivity.
Qed.

(** ** The script *)

Lemma view_builder_run (df : DataFrame) (s : list artifact) :
  view_builder df s = run_charts script_order df s.
Proof.
  unfold view_builder, script_order, run_charts, sbind, lift, plotly_chart, pyplot,
    compute, bind.
  destruct (make_fig1 df); [|reflexivity].
  destruct (make_fig2 df); [|reflexivity].
  destruct (corr_matrix df); [|reflexivity].
  destruct (agg_df df); [|reflexivity].
  destruct (make_fig5 df); [|reflexivity].
  destruct (radar_data df); [|reflexivity].
  destruct (diagnosed_df df) as [dd|]; [|reflexivity].
  destruct (top_countries dd); [|reflexivity].
  destruct (country_counts dd); reflexivity.
Qed.

Lemma compute_chart_of (c : chart) (df : DataFrame) (a : artifact) :
  compute c df = ok a -> chart_of a = c.
Proof.
  destruct c; simpl; unfold make_fig1, make_fig2, make_fig5; intros H;
    repeat (apply bind_ok in H as (? & _ & H)); now injection H as <-.
Qed.

Lemma mapM_chart_of (cs : list chart) (df : DataFrame) (arts : list artifact) :
  mapM (fun c => compute c df) cs = ok arts -> map chart_of arts = cs.
Proof.
  revert arts. induction cs as [|c cs IH]; simpl; intros arts H.
  - now injection H as <-.
  - apply bind_ok in H as (a & Ha & H). apply bind_ok in H as (as' & Has & H).
    injection H as <-. simpl. f_equal; [now apply (compute_chart_of c df) | now apply IH].
Qed.

Lemma run_charts_cons (c : chart) (cs : list chart) (df : DataFrame) (s : list artifact) :
  run_charts (c :: cs) df s
  = match compute c df with
    | ok a => run_charts cs df (s ++ [a])
    | raise e => (raise e, s)
    end.
Proof.
  simpl. unfold sbind, lift, plotly_chart. now destruct (compute c df).
Qed.

(** A run of charts either displays them all, or displays those before
    the first one that fails and stops there. *)
Lemma run_charts_spec (cs : list chart) (df : DataFrame) (s : list artifact) :
  (exists arts,
      mapM (fun c => compute c df) cs = ok arts /\
      run_charts cs df s = (ok tt, s ++ arts)) \/
  (exists pre c post e arts,
      cs = pre ++ c :: post /\
      mapM (fun c => compute c df) pre = ok arts /\
      compute c df = raise e /\
      run_charts cs df s = (raise e, s ++ arts)).
Proof.
  revert s. induction cs as [|c cs IH]; intros s.
  - left. exists []. simpl. unfold lift. now rewrite app_nil_r.
  - rewrite run_charts_cons. destruct (compute c df) as [a|e] eqn:Ec.
    + destruct (IH (s ++ [a]))
        as [(arts & Hm & Hr)|(pre & c' & post & e & arts & Ecs & Hm & Hc & Hr)].
      * left. exists (a :: arts). rewrite Hr. simpl. rewrite Ec, Hm. simpl.
        now rewrite <- app_assoc.
      * right. exists (c :: pre), c', post, e, (a :: arts). rewrite Hr, Ecs.
        simpl. rewrite Ec, Hm. simpl. rewrite <- app_assoc. auto.
    + right. exists [], c, cs, e, []. simpl. rewrite app_nil_r. auto.
Qed.

Lemma script_order_NoDup : NoDup script_order.
Proof.
  unfold script_order. repeat constructor; simpl; intuition discriminate.
Qed.

Lemma mapM_ok_In {A B : Type} (f : A -> result B) (l : list A) (bs : list B) (a : A) :
  mapM f l = ok bs -> In a l -> exists b, f a = ok b.
Proof.
  intros H Hin. apply In_nth_error in Hin as (j & Hj).
  destruct (mapM_nth f l bs H j a Hj) as (b & Hb & _). eauto.
Qed.

Lemma prefix_not_later (pre post : list chart) (c c' : chart) :
  NoDup (pre ++ c :: post) -> In c' (c :: post) -> ~ In c' pre.
Proof.
  induction pre as [|p pre IH]; simpl; intros Hnd Hin Hpre; [contradiction|].
  inversion Hnd as [|? ? Hnin Hnd']; subst.
  destruct Hpre as [->|Hpre].
  - apply Hnin. apply in_or_app. now right.
  - now apply (IH Hnd' Hin).
Qed.

(** C4, amended: the script has no handler around its charts.  When the
    computation of a chart raises on the table, the run raises: the
    exception of the first chart of the script that fails propagates and
    ends it.  The charts that come before that one are the ones
    displayed, in order; that chart and every chart after it (so, every
    chart that fails) are not displayed, whether or not they could have
    been computed.  Conversely a run raises only when a chart failed. *)
Theorem chart_failure_stops_script (df : DataFrame) :
  (forall c e,
      In c script_order -> compute c df = raise e ->
      exists pre c0 post e0 s,
        script_order = pre ++ c0 :: post /\
        compute c0 df = raise e0 /\
        mapM (fun c => compute c df) pre = ok s /\
        view_builder df [] = (raise e0, s) /\
        map chart_of s = pre /\
        (forall c', In c' (c0 :: post) -> ~ In c' (map chart_of s)) /\
        In c (c0 :: post)) /\
  (forall e s,
      view_builder df [] = (raise e, s) ->
      exists pre c post,
        script_order = pre ++ c :: post /\
        compute c df = raise e /\
        mapM (fun c => compute c df) pre = ok s /\
        map chart_of s = pre /\
        (forall c', In c' (c :: post) -> ~ In c' (map chart_of s))).
Proof.
  split.
  - intros c e Hc Hfail. rewrite view_builder_run.
    destruct (run_charts_spec script_order df []) as
        [(arts & Hm & _)|(pre & c0 & post & e0 & arts & Ho & Hm & Hc0 & Hr)].
    + destruct (mapM_ok_In _ _ _ c Hm Hc) as (a & Ha). congruence.
    + exists pre, c0, post, e0, arts. simpl in Hr.
      pose proof (mapM_chart_of _ _ _ Hm) as Hpre.
      pose proof script_order_NoDup as Hnd. rewrite Ho in Hnd.
      repeat split; auto.
      * intros c' Hin. rewrite Hpre. now apply (prefix_not_later pre post c0).
      * rewrite Ho in Hc. apply in_app_or in Hc as [Hc|Hc]; [|exact Hc].
        destruct (mapM_ok_In _ _ _ c Hm Hc) as (a & Ha). congruence.
  - intros e s. rewrite view_builder_run. intros H.
    destruct (run_charts_spec script_order df []) as
        [(arts & _ & Hr)|(pre & c & post & e' & arts & Ho & Hm & Hc & Hr)].
    + rewrite Hr in H. discriminate.
    + rewrite Hr in H. simpl in H. injection H as -> ->.
      exists pre, c, post. repeat split; auto.
      * now apply mapM_chart_of in Hm.
      * intros c' Hin. rewrite (mapM_chart_of _ _ _ Hm).
        pose proof script_order_NoDup as Hnd. rewrite Ho in Hnd.
        now apply (prefix_not_later pre post c).
Qed.

Lemma chart_failure_stops_script_witness :
  exists pre c0 post e0 s,
    script_order = pre ++ c0 :: post /\
    compute c0 (loaded (drop_column "Gender" ex_full)) = raise e0 /\
    mapM (fun c => compute c (loaded (drop_column "Gender" ex_full))) pre = ok s /\
    view_builder (loaded (drop_column "Gender" ex_full)) [] = (raise e0, s) /\
    map chart_of s = pre /\
    (forall c', In c' (c0 :: post) -> ~ In c' (map chart_of s)) /\
    In fig5 (c0 :: post).
Proof.
  destruct (chart_failure_stops_script (loaded (drop_column "Gender" ex_full)))
    as (Hforward & _).
  apply (Hforward fig5 ValueError).
  - simpl. tauto.
  - reflexivity.
Defined.

(** C4, as stated, fails: without the "Gender" column the gender
    histogram raises; the radar, the pie and the map could be computed
    from the table, yet none of them reaches the display. *)
Lemma chart_failure_not_isolated :
  let r := main None (Csv (drop_column "Gender" ex_full)) in
  let df := loaded (drop_column "Gender" ex_full) in
  compute fig5 df = raise ValueError /\
  outcome r = raise ValueError /\
  map chart_of (displayed r) = [fig1; fig2; fig_corr; fig3; fig4] /\
  (exists a6 a7 a8,
      compute fig6 df = ok a6 /\ compute fig7 df = ok a7 /\ compute fig8 df = ok a8) /\
  ~ In fig6 (map chart_of (displayed r)) /\
  ~ In fig7 (map chart_of (displayed r)) /\
  ~ In fig8 (map chart_of (displayed r)).
Proof.
  assert (E : map chart_of (displayed (main None (Csv (drop_column "Gender" ex_full))))
              = [fig1; fig2; fig_corr; fig3; fig4]) by reflexivity.
  cbv zeta. rewrite E.
  split; [reflexivity|]. split; [reflexivity|]. split; [reflexivity|].
  split.
  - eexists. eexists. eexists. repeat split; reflexivity.
  - repeat split; simpl; intuition discriminate.
Qed.

(** ** Load failures *)

Lemma cut_numeric (a : column) (bins : list Q) (labels : list string) :
  numeric a -> exists g, cut a bins labels = ok g.
Proof.
  unfold numeric. induction a as [|c a IH]; intros H; simpl.
  - now exists [].
  - destruct IH as (g & Hg); [intros s Hs; apply (H s); now right|].
    destruct c as [[q|s]|]; simpl.
    + rewrite Hg. simpl. eauto.
    + exfalso. apply (H s). now left.
    + rewrite Hg. simpl. eauto.
Qed.

Lemma main_load_failure (f : file) (e : exn) :
  load_data f = raise e ->
  main None f = {| outcome := raise e; displayed := []; memo := None |}.
Proof.
  intros H. unfold main, load_data_cached. now rewrite H.
Qed.

(** C5, amended: the load raises the exception of the library call that
    failed when the file is missing, unreadable or malformed, and a
    [KeyError] when the file lacks the "Age" column or the diagnosis
    column; it does not check any other column, and succeeds on every file
    that has these two, with numeric ages.  A load that raises ends the
    run: no chart is displayed and nothing is memoised. *)
Theorem load_failure_fatal (f : file) :
  (f = Missing -> load_data f = raise FileNotFoundError) /\
  (f = Unreadable -> load_data f = raise PermissionError) /\
  (f = Malformed -> load_data f = raise ParserError) /\
  (forall raw, f = Csv raw -> lookup diagnosis raw = None ->
               load_data f = raise (KeyError diagnosis)) /\
  (forall raw d, f = Csv raw -> lookup diagnosis raw = Some d ->
                 lookup "Age" raw = None -> load_data f = raise (KeyError "Age")) /\
  (forall raw d a, f = Csv raw -> lookup diagnosis raw = Some d ->
                   lookup "Age" raw = Some a -> numeric a ->
                   exists df, load_data f = ok df) /\
  (forall e, load_data f = raise e ->
             outcome (main None f) = raise e /\
             displayed (main None f) = [] /\
             memo (main None f) = None).
Proof.
  repeat split; try (intros ->; reflexivity).
  - intros raw -> H. unfold load_data, getitem. simpl. now rewrite H.
  - intros raw d -> Hd Ha. unfold load_data, getitem. simpl. rewrite Hd. simpl.
    rewrite lookup_setitem_other by reflexivity. now rewrite Ha.
  - intros raw d a -> Hd Ha Hnum. unfold load_data, getitem. simpl. rewrite Hd. simpl.
    rewrite lookup_setitem_other by reflexivity. rewrite Ha. simpl.
    destruct (cut_numeric a age_bins age_labels Hnum) as (g & ->). simpl. eauto.
  - now rewrite (main_load_failure f e H).
  - now rewrite (main_load_failure f e H).
  - now rewrite (main_load_failure f e H).
Qed.

Lemma load_failure_fatal_witness :
  load_data (Csv (drop_column "Age" ex_full)) = raise (KeyError "Age") /\
  outcome (main None (Csv (drop_column "Age" ex_full))) = raise (KeyError "Age") /\
  displayed (main None (Csv (drop_column "Age" ex_full))) = [] /\
  memo (main None (Csv (drop_column "Age" ex_full))) = None.
Proof.
  destruct (load_failure_fatal (Csv (drop_column "Age" ex_full)))
    as (_ & _ & _ & _ & Hage & _ & Hfatal).
  assert (H : load_data (Csv (drop_column "Age" ex_full)) = raise (KeyError "Age")).
  { apply (Hage (drop_column "Age" ex_full) [yes; no; yes; no]); reflexivity. }
  split; [exact H|]. exact (Hfatal _ H).
Defined.

(** C5, as stated, fails: a file without the "Country" column loads, and
    seven charts are displayed before the pie raises. *)
Lemma load_ignores_country :
  let f := Csv (drop_column "Country" ex_full) in
  lookup "Country" (drop_column "Country" ex_full) = None /\
  (exists df, load_data f = ok df) /\
  map chart_of (displayed (main None f))
  = [fig1; fig2; fig_corr; fig3; fig4; fig5; fig6] /\
  outcome (main None f) = raise (KeyError "Country").
Proof.
  cbv zeta. split; [reflexivity|]. split; [eexists; reflexivity|].
  split; reflexivity.
Qed.

(** ** Determinism *)

Lemma load_data_cached_coherent (m : cache) (f : file) :
  coherent m f ->
  fst (load_data_cached m f) = load_data f /\
  coherent (snd (load_data_cached m f)) f.
Proof.
  unfold coherent, load_data_cached. destruct m as [df|].
  - intros H. simpl. now rewrite H.
  - intros _. destruct (load_data f) as [df|e] eqn:E; simpl; auto.
Qed.

Lemma main_coherent (m : cache) (f : file) :
  coherent m f ->
  outcome (main m f) = outcome (main None f) /\
  displayed (main m f) = displayed (main None f) /\
  coherent (memo (main m f)) f.
Proof.
  intros H. unfold main.
  destruct (load_data_cached_coherent m f H) as (E1 & C1).
  destruct (load_data_cached_coherent None f I) as (E2 & _).
  destruct (load_data_cached m f) as [r1 m1], (load_data_cached None f) as [r2 m2].
  simpl in *. subst r1 r2. destruct (load_data f); simpl; auto.
Qed.

Lemma load_data_derived (f : file) (df : DataFrame) :
  load_data f = ok df ->
  exists d a g,
    lookup diagnosis df = Some d /\
    lookup "Age" df = Some a /\
    cut a age_bins age_labels = ok g /\
    lookup "Diagnosis_Binary" df = Some (series_map diagnosis_dict d) /\
    lookup "Age Group" df = Some g.
Proof.
  intros H. apply load_data_columns in H as (d & a & g & Hg & Hd & Hb & Ha & Hgr).
  exists d, a, g. auto.
Qed.

(** C9: loading is deterministic.  Whatever the memo holds from earlier
    runs on the same file, a load returns what a first load of that file
    returns, and the run displays the same charts with the same outcome;
    the memo stays in step with the file.  The two derived columns are
    determined by the two source columns they are computed from. *)
Theorem load_deterministic (f : file) (m : cache) :
  coherent m f ->
  fst (load_data_cached m f) = load_data f /\
  coherent (snd (load_data_cached m f)) f /\
  outcome (main m f) = outcome (main None f) /\
  displayed (main m f) = displayed (main None f) /\
  coherent (memo (main m f)) f /\
  (forall f' df df',
      load_data f = ok df -> load_data f' = ok df' ->
      lookup diagnosis df = lookup diagnosis df' ->
      lookup "Age" df = lookup "Age" df' ->
      lookup "Diagnosis_Binary" df = lookup "Diagnosis_Binary" df' /\
      lookup "Age Group" df = lookup "Age Group" df').
Proof.
  intros H.
  destruct (load_data_cached_coherent m f H) as (E & C).
  destruct (main_coherent m f H) as (Ho & Hd & Hm).
  repeat split; auto.
  - apply load_data_derived in H0 as (d & a & g & Hd1 & Ha1 & Hg1 & Hb1 & Hgr1).
    apply load_data_derived in H1 as (d' & a' & g' & Hd2 & Ha2 & Hg2 & Hb2 & Hgr2).
    rewrite Hb1, Hb2. congruence.
  - apply load_data_derived in H0 as (d & a & g & Hd1 & Ha1 & Hg1 & Hb1 & Hgr1).
    apply load_data_derived in H1 as (d' & a' & g' & Hd2 & Ha2 & Hg2 & Hb2 & Hgr2).
    rewrite Hgr1, Hgr2. congruence.
Qed.

Lemma load_deterministic_witness :
  let f := Csv ex_full in
  let m := memo (main None f) in
  fst (load_data_cached m f) = load_data f /\
  coherent (snd (load_data_cached m f)) f /\
  outcome (main m f) = outcome (main None f) /\
  displayed (main m f) = displayed (main None f) /\
  coherent (memo (main m f)) f /\
  (forall f' df df',
      load_data f = ok df -> load_data f' = ok df' ->
      lookup diagnosis df = lookup diagnosis df' ->
      lookup "Age" df = lookup "Age" df' ->
      lookup "Diagnosis_Binary" df = lookup "Diagnosis_Binary" df' /\
      lookup "Age Group" df = lookup "Age Group" df').
Proof.
  apply (load_deterministic (Csv ex_full) (memo (main None (Csv ex_full)))).
  reflexivity.
Defined.

(** * Further properties of the script *)

(** ** What loading leaves in place *)

Lemma setitem_names (df : DataFrame) (k : string) (c : column) :
  map fst (setitem df k c)
  = match lookup k df with
    | Some _ => map fst df
    | None => map fst df ++ [k]
    end.
Proof.
  induction df as [|[k' c'] rest IH]; simpl; [reflexivity|].
  destruct (String.eqb k k') eqn:E; simpl; [reflexivity|].
  rewrite IH. now destruct (lookup k rest).
Qed.

Lemma cut_length (x g : column) (bins : list Q) (labels : list string) :
  cut x bins labels = ok g -> List.length g = List.length x.
Proof.
  revert g. induction x as [|c x IH]; simpl; intros g H.
  - now injection H as <-.
  - apply bind_ok in H as (r & _ & H). apply bind_ok in H as (gs & Hgs & H).
    injection H as <-. simpl. f_equal. now apply IH.
Qed.

(** Loading keeps every column of the file as it is, apart from a column
    that already bears the name of a derived one; it adds at most the two
    derived columns, after the columns of the file, and each derived column
    has one cell per row of the column it is computed from. *)
Theorem load_data_keeps_columns (f : file) (df : DataFrame) :
  load_data f = ok df ->
  exists raw d a b g,
    f = Csv raw /\
    (forall k, String.eqb k "Diagnosis_Binary" = false ->
               String.eqb k "Age Group" = false ->
               lookup k df = lookup k raw) /\
    lookup diagnosis raw = Some d /\
    lookup "Age" raw = Some a /\
    lookup "Diagnosis_Binary" df = Some b /\
    lookup "Age Group" df = Some g /\
    List.length b = List.length d /\
    List.length g = List.length a /\
    (exists added, map fst df = map fst raw ++ added /\
                   incl added ["Diagnosis_Binary"; "Age Group"]).
Proof.
  intros H. apply load_data_ok in H as (raw & d & a & g & -> & Hd & Ha & Hg & ->).
  exists raw, d, a, (series_map diagnosis_dict d), g.
  split; [reflexivity|]. split.
  { intros k H1 H2. now rewrite !lookup_setitem_other. }
  split; [exact Hd|]. split; [exact Ha|]. split.
  { rewrite lookup_setitem_other by reflexivity. apply lookup_setitem_same. }
  split; [apply lookup_setitem_same|]. split.
  { unfold series_map. apply length_map. }
  split; [now apply cut_length in Hg|].
  rewrite !setitem_names.
  destruct (lookup "Age Group" (setitem raw "Diagnosis_Binary" _));
    destruct (lookup "Diagnosis_Binary" raw).
  - exists []. rewrite app_nil_r. split; [reflexivity | intros x []].
  - exists ["Diagnosis_Binary"]. split; [reflexivity|].
    intros x [<-|[]]. now left.
  - exists ["Age Group"]. split; [reflexivity|].
    intros x [<-|[]]. right. now left.
  - exists ["Diagnosis_Binary"; "Age Group"]. rewrite <- app_assoc.
    split; [reflexivity | apply incl_refl].
Qed.

Lemma load_data_keeps_columns_witness :
  exists raw d a b g,
    Csv ex4 = Csv raw /\
    (forall k, String.eqb k "Diagnosis_Binary" = false ->
               String.eqb k "Age Group" = false ->
               lookup k (loaded ex4) = lookup k raw) /\
    lookup diagnosis raw = Some d /\
    lookup "Age" raw = Some a /\
    lookup "Diagnosis_Binary" (loaded ex4) = Some b /\
    lookup "Age Group" (loaded ex4) = Some g /\
    List.length b = List.length d /\
    List.length g = List.length a /\
    (exists added, map fst (loaded ex4) = map fst raw ++ added /\
                   incl added ["Diagnosis_Binary"; "Age Group"]).
Proof.
  apply (load_data_keeps_columns (Csv ex4) (loaded ex4)). reflexivity.
Defined.

(** ** The edges of the age bins *)

Ltac compare_edge b q :=
  let E := fresh "E" in
  destruct (Qlt_bool b q) eqn:E;
  [apply Qlt_bool_iff in E | apply Qlt_bool_false_iff in E].

(** Each bin is open on the left and closed on the right, for fractional
    ages too: an age strictly above an edge and at most the next edge gets
    the label between the two, so 59.5 is labelled "60–69"; an age above
    99, such as 99.5, gets no label, like an age of at most 49. *)
Theorem age_bins_right_closed (q : Q) :
  (forall i lo hi label,
      nth_error age_bins i = Some lo ->
      nth_error age_bins (S i) = Some hi ->
      nth_error age_labels i = Some label ->
      (lo < q)%Q -> (q <= hi)%Q ->
      cut_value age_bins age_labels q = Some (Str label)) /\
  (cut_value age_bins age_labels q = None <-> (q <= 49)%Q \/ (99 < q)%Q).
Proof.
  assert (Hcases :
    (q <= 49 /\ cut_value age_bins age_labels q = None)%Q \/
    (49 < q /\ q <= 59 /\ cut_value age_bins age_labels q = Some (Str "50–59"))%Q \/
    (59 < q /\ q <= 69 /\ cut_value age_bins age_labels q = Some (Str "60–69"))%Q \/
    (69 < q /\ q <= 79 /\ cut_value age_bins age_labels q = Some (Str "70–79"))%Q \/
    (79 < q /\ q <= 89 /\ cut_value age_bins age_labels q = Some (Str "80–89"))%Q \/
    (89 < q /\ q <= 99 /\ cut_value age_bins age_labels q = Some (Str "90–99"))%Q \/
    (99 < q /\ cut_value age_bins age_labels q = None)%Q).
  { unfold cut_value, searchsorted_left, age_bins. simpl filter.
    compare_edge 49%Q q; compare_edge 59%Q q; compare_edge 69%Q q;
      compare_edge 79%Q q; compare_edge 89%Q q; compare_edge 99%Q q;
      try (exfalso; Lqa.lra); simpl; intuition. }
  split.
  - intros i lo hi label Hlo Hhi Hl Hlt Hle.
    do 5 (destruct i as [|i];
          [simpl in Hlo, Hhi, Hl; injection Hlo as <-; injection Hhi as <-;
           injection Hl as <-;
           decompose [and or] Hcases; try assumption; exfalso; Lqa.lra|]).
    simpl in Hhi. destruct i; discriminate.
  - split.
    + intros Hn. decompose [and or] Hcases; auto; congruence.
    + intros [H|H]; decompose [and or] Hcases; auto; exfalso; Lqa.lra.
Qed.

Lemma age_bins_right_closed_witness :
  cut_value age_bins age_labels (119 # 2) = Some (Str "60–69") /\
  cut_value age_bins age_labels (199 # 2) = None.
Proof.
  destruct (age_bins_right_closed (119 # 2)) as (Hin & _).
  destruct (age_bins_right_closed (199 # 2)) as (_ & Hout).
  split.
  - apply (Hin 1%nat 59%Q 69%Q "60–69");
      try reflexivity; unfold Qlt, Qle; simpl; lia.
  - apply Hout. right. unfold Qlt. simpl. lia.
Defined.

(** ** When loading succeeds *)

Lemma cut_string (a : column) (bins : list Q) (labels : list string) (s : string) :
  In (Some (Str s)) a -> cut a bins labels = raise TypeError.
Proof.
  induction a as [|c a IH]; simpl; intros H; [contradiction|].
  destruct c as [[q|t]|]; simpl; try reflexivity.
  - destruct H as [H|H]; [discriminate|]. now rewrite (IH H).
  - destruct H as [H|H]; [discriminate|]. now rewrite (IH H).
Qed.

Lemma cut_ok_numeric (a g : column) (bins : list Q) (labels : list string) :
  cut a bins labels = ok g -> numeric a.
Proof.
  intros H s Hin. rewrite (cut_string a bins labels s Hin) in H. discriminate.
Qed.

(** Loading succeeds exactly on a readable file that has the diagnosis
    column and an "Age" column without strings; an "Age" column that holds
    a string makes the binning raise [TypeError], and then nothing is
    displayed. *)
Theorem load_data_succeeds_iff (raw : DataFrame) :
  ((exists df, load_data (Csv raw) = ok df) <->
   exists d a, lookup diagnosis raw = Some d /\ lookup "Age" raw = Some a /\ numeric a) /\
  (forall d a s,
      lookup diagnosis raw = Some d -> lookup "Age" raw = Some a ->
      In (Some (Str s)) a ->
      load_data (Csv raw) = raise TypeError /\
      displayed (main None (Csv raw)) = []).
Proof.
  split; [split|].
  - intros (df & H). apply load_data_ok in H as (raw' & d & a & g & E & Hd & Ha & Hg & _).
    injection E as <-. exists d, a. repeat split; auto. eapply cut_ok_numeric; eauto.
  - intros (d & a & Hd & Ha & Hnum). unfold load_data, getitem. simpl.
    rewrite Hd. simpl. rewrite lookup_setitem_other by reflexivity. rewrite Ha. simpl.
    destruct (cut_numeric a age_bins age_labels Hnum) as (g & ->). simpl. eauto.
  - intros d a s Hd Ha Hin.
    assert (H : load_data (Csv raw) = raise TypeError).
    { unfold load_data, getitem. simpl. rewrite Hd. simpl.
      rewrite lookup_setitem_other by reflexivity. rewrite Ha. simpl.
      now rewrite (cut_string a age_bins age_labels s Hin). }
    split; [exact H|]. now rewrite (main_load_failure _ _ H).
Qed.

Lemma load_data_succeeds_iff_witness :
  load_data (Csv [("Age", [Some (Num 70); Some (Str "unknown")]);
                  (diagnosis, [yes; no])]) = raise TypeError /\
  displayed (main None (Csv [("Age", [Some (Num 70); Some (Str "unknown")]);
                             (diagnosis, [yes; no])])) = [].
Proof.
  destruct (load_data_succeeds_iff [("Age", [Some (Num 70); Some (Str "unknown")]);
                                    (diagnosis, [yes; no])]) as (_ & H).
  apply (H [yes; no] [Some (Num 70); Some (Str "unknown")] "unknown").
  - reflexivity.
  - reflexivity.
  - right. left. reflexivity.
Defined.

(** ** What a run displays *)

Lemma run_charts_ok (cs : list chart) (df : DataFrame) (s s' : list artifact) :
  run_charts cs df s = (ok tt, s') <->
  exists arts, mapM (fun c => compute c df) cs = ok arts /\ s' = s ++ arts.
Proof.
  split.
  - intros H.
    destruct (run_charts_spec cs df s)
      as [(arts & Hm & Hr)|(pre & c & post & e & arts & _ & _ & _ & Hr)];
      rewrite Hr in H; [|discriminate].
    injection H as <-. eauto.
  - intros (arts & Hm & ->).
    destruct (run_charts_spec cs df s)
      as [(arts' & Hm' & Hr)|(pre & c & post & e & arts' & Ecs & Hpre & Hc & Hr)].
    + rewrite Hm in Hm'. injection Hm' as <-. exact Hr.
    + exfalso. subst cs. clear Hr. revert arts arts' Hm Hpre.
      induction pre as [|p pre IH]; simpl; intros arts arts' Hm Hpre.
      * rewrite Hc in Hm. discriminate.
      * destruct (compute p df); simpl in *; [|discriminate].
        destruct (mapM (fun c0 => compute c0 df) (pre ++ c :: post)) eqn:E1;
          simpl in *; [|discriminate].
        destruct (mapM (fun c0 => compute c0 df) pre) eqn:E2; simpl in *; [|discriminate].
        eapply IH; reflexivity.
Qed.

(** A run that ends without an exception has displayed the nine charts,
    in the order of the script, each computed from the table; and the
    run ends without an exception exactly when each of the nine
    computations succeeds.  Charts already on display stay in front. *)
Theorem view_builder_complete (df : DataFrame) (s s' : list artifact) :
  view_builder df s = (ok tt, s') <->
  exists arts,
    mapM (fun c => compute c df) script_order = ok arts /\
    s' = s ++ arts /\
    map chart_of arts = script_order.
Proof.
  rewrite view_builder_run, run_charts_ok. split.
  - intros (arts & Hm & ->). exists arts. repeat split; auto.
    now apply mapM_chart_of in Hm.
  - intros (arts & Hm & -> & _). eauto.
Qed.

(** The sink only grows: whatever happens, what was displayed before the
    run is still displayed after it, in front of what the run added. *)
Theorem view_builder_appends (df : DataFrame) (s : list artifact) :
  exists arts, snd (view_builder df s) = s ++ arts /\
               (List.length arts <= 9)%nat.
Proof.
  rewrite view_builder_run.
  destruct (run_charts_spec script_order df s)
    as [(arts & Hm & Hr)|(pre & c & post & e & arts & Ecs & Hpre & Hc & Hr)];
    rewrite Hr; exists arts; split; auto.
  - apply mapM_chart_of in Hm. apply (f_equal (@List.length chart)) in Hm.
    rewrite length_map in Hm. rewrite Hm. simpl. lia.
  - apply mapM_chart_of in Hpre. apply (f_equal (@List.length chart)) in Hpre.
    rewrite length_map in Hpre. rewrite Hpre.
    apply (f_equal (@List.length chart)) in Ecs. rewrite length_app in Ecs.
    simpl in Ecs. lia.
Qed.

(** After a successful load the first two histograms never fail: every
    run displays at least the diagnosis histogram, drawn from the label
    column, and the age-group histogram, drawn from the derived column. *)
Theorem histograms_after_load (f : file) (df : DataFrame) :
  load_data f = ok df ->
  exists d g rest,
    lookup diagnosis df = Some d /\
    lookup "Age Group" df = Some g /\
    displayed (main None f)
    = DiagnosisHistogram d d :: AgeGroupHistogram g d :: rest.
Proof.
  intros H. unfold main, load_data_cached. rewrite H. simpl.
  apply load_data_columns in H as (d & a & g & _ & Hd & _ & _ & Hg).
  exists d, g.
  assert (H1 : compute fig1 df = ok (DiagnosisHistogram d d)).
  { simpl. unfold make_fig1, px_histogram. now rewrite Hd. }
  assert (H2 : compute fig2 df = ok (AgeGroupHistogram g d)).
  { simpl. unfold make_fig2, px_histogram. now rewrite Hg, Hd. }
  rewrite view_builder_run. unfold script_order.
  rewrite run_charts_cons, H1, run_charts_cons, H2.
  destruct (run_charts_spec [fig_corr; fig3; fig4; fig5; fig6; fig7; fig8] df
              (([] ++ [DiagnosisHistogram d d]) ++ [AgeGroupHistogram g d]))
    as [(arts & _ & Hr)|(pre & c & post & e & arts & _ & _ & _ & Hr)];
    rewrite Hr; exists arts; auto.
Qed.

Lemma histograms_after_load_witness :
  exists d g rest,
    lookup diagnosis (loaded ex4) = Some d /\
    lookup "Age Group" (loaded ex4) = Some g /\
    displayed (main None (Csv ex4))
    = DiagnosisHistogram d d :: AgeGroupHistogram g d :: rest.
Proof.
  apply (histograms_after_load (Csv ex4) (loaded ex4)). reflexivity.
Defined.

(** ** The memo across runs *)

(** The memo is never refreshed: once a run has loaded a table, every
    later run works from that table whatever the file has become, even if
    it is gone; a load that raised is not memoised, so the next run reads
    the file again. *)
Theorem memo_never_refreshed (f f' : file) :
  (forall df, load_data f = ok df ->
              memo (main None f) = Some df /\
              outcome (main (memo (main None f)) f') = outcome (main None f) /\
              displayed (main (memo (main None f)) f') = displayed (main None f) /\
              memo (main (memo (main None f)) f') = Some df) /\
  (forall e, load_data f = raise e ->
             main (memo (main None f)) f' = main None f').
Proof.
  split.
  - intros df H. unfold main, load_data_cached. rewrite H. simpl. auto.
  - intros e H. now rewrite (main_load_failure f e H).
Qed.

Lemma memo_never_refreshed_witness :
  memo (main None (Csv ex_full)) = Some (loaded ex_full) /\
  outcome (main (memo (main None (Csv ex_full))) Missing)
  = outcome (main None (Csv ex_full)) /\
  displayed (main (memo (main None (Csv ex_full))) Missing)
  = displayed (main None (Csv ex_full)) /\
  memo (main (memo (main None (Csv ex_full))) Missing) = Some (loaded ex_full).
Proof.
  destruct (memo_never_refreshed (Csv ex_full) Missing) as (H & _).
  apply (H (loaded ex_full)). reflexivity.
Defined.

(** ** The table behind the map *)

(** The counts behind the choropleth add up to the number of rows
    labelled "Yes" that have a recorded country: a diagnosed subject
    without a country is on no country of the map; and no country is
    listed with a count of zero. *)
Theorem country_counts_total (df : DataFrame) (d c : column) :
  lookup diagnosis df = Some d ->
  lookup "Country" df = Some c ->
  exists dd all,
    diagnosed_df df = ok dd /\
    country_counts dd = ok all /\
    total all = List.length (filter diagnosed_recorded (combine d c)) /\
    (forall k n, In (k, n) all -> (1 <= n)%nat).
Proof.
  intros Hd Hc. destruct (country_tables df d c Hd Hc) as (dd & Hdd & _ & Hall).
  set (diagnosed := select (eq_mask d (Str "Yes")) c) in *.
  exists dd, (value_counts diagnosed). repeat split; auto.
  - destruct (value_counts_spec diagnosed) as (_ & _ & _ & Htot & _).
    rewrite Htot.
    assert (E : forall l : list cell, filter (fun _ => true) l = l)
      by (induction l; simpl; congruence).
    rewrite <- (E (counted diagnosed)). unfold diagnosed.
    rewrite (counted_select "Yes" d c (fun _ => true)). reflexivity.
  - intros k n Hin. destruct (value_counts_spec diagnosed) as (_ & Hcnt & _).
    now apply Hcnt in Hin.
Qed.

Lemma country_counts_total_witness :
  exists dd all,
    diagnosed_df (loaded ex_full) = ok dd /\
    country_counts dd = ok all /\
    total all
    = List.length
        (filter diagnosed_recorded
           (combine [yes; no; yes; no]
              [Some (Str "Canada"); Some (Str "Brazil"); Some (Str "Canada");
               Some (Str "India")])) /\
    (forall k n, In (k, n) all -> (1 <= n)%nat).
Proof.
  apply (country_counts_total (loaded ex_full)); reflexivity.
Defined.

(** ** Masks keep rows aligned *)

Lemma select_length {A : Type} (mask : list bool) (l : list A) :
  List.length l = List.length mask -> List.length (select mask l) = kept mask.
Proof.
  unfold kept. revert l. induction mask as [|b mask IH]; intros [|x l] H;
    try discriminate; [reflexivity|].
  rewrite select_cons. simpl in *. injection H as H.
  destruct b; simpl; now rewrite IH.
Qed.

(** Boolean indexing keeps the names and the order of the columns and
    keeps the rows aligned: when every column has one cell per position of
    the mask, every column of the result has one cell per position kept. *)
Theorem boolean_index_aligned (df : DataFrame) (mask : list bool) :
  map fst (boolean_index df mask) = map fst df /\
  ((forall k c, In (k, c) df -> List.length c = List.length mask) ->
   forall k c, In (k, c) (boolean_index df mask) -> List.length c = kept mask).
Proof.
  split.
  - unfold boolean_index. rewrite map_map. reflexivity.
  - intros H k c Hin. unfold boolean_index in Hin.
    apply in_map_iff in Hin as ([k0 c0] & E & Hin). simpl in E.
    injection E as <- <-. apply select_length. now apply (H k0).
Qed.

Lemma boolean_index_aligned_witness :
  map fst (boolean_index ex4 [true; false; true; true]) = map fst ex4 /\
  (forall k c, In (k, c) (boolean_index ex4 [true; false; true; true]) ->
               List.length c = kept [true; false; true; true]).
Proof.
  destruct (boolean_index_aligned ex4 [true; false; true; true]) as (Hn & Hl).
  split; [exact Hn|]. apply Hl.
  intros k c [E|[E|[]]]; injection E as <- <-; reflexivity.
Defined.

(** ** More on the radar *)

Lemma select_none {A : Type} (mask : list bool) (l : list A) :
  (forall b, In b mask -> b = false) -> select mask l = [].
Proof.
  revert l. induction mask as [|b mask IH]; intros [|x l] H; try reflexivity.
  rewrite select_cons. rewrite (H b) by now left.
  apply IH. intros b' Hb'. apply H. now right.
Qed.

(** A group without any row has no radar polygon to speak of: each of
    its five values is missing. *)
Theorem radar_empty_group (df : DataFrame) (rd : list (string * list (option Q)))
        (g : string) (vs : list (option Q)) (d : column) :
  radar_data df = ok rd ->
  In (g, vs) rd ->
  lookup diagnosis df = Some d ->
  (forall x, In x d -> has_label g x = false) ->
  vs = [None; None; None; None; None].
Proof.
  intros Hrd Hin Hd Hnone.
  apply (radar_data_In df rd g vs Hrd) in Hin.
  unfold radar_counts in Hin. rewrite (subset_of_ok df g d Hd) in Hin.
  cbn [bind] in Hin.
  assert (Hv : forall col b,
             radar_value (boolean_index df (eq_mask d (Str g))) col = ok b -> b = None).
  { intros col b Hb. unfold radar_value in Hb.
    apply bind_ok in Hb as (c & Hc & Hb). apply getitem_ok in Hc.
    rewrite lookup_boolean_index in Hc.
    destruct (lookup col df) as [c0|]; [|discriminate]. simpl in Hc.
    injection Hc as <-. injection Hb as <-.
    rewrite select_none; [reflexivity|].
    intros b Hb. unfold eq_mask in Hb. apply in_map_iff in Hb as (x & <- & Hx).
    exact (Hnone x Hx). }
  unfold lifestyle_cols in Hin. simpl in Hin.
  repeat (apply bind_ok in Hin as (? & ? & Hin)).
  injection Hin as <-.
  repeat match goal with
         | H : radar_value _ _ = ok _ |- _ => apply Hv in H; subst
         | H : ok _ = ok _ |- _ => injection H as <-
         | H : bind _ _ = ok _ |- _ => apply bind_ok in H as (? & ? & H)
         end.
  reflexivity.
Qed.

Lemma radar_empty_group_witness :
  exists rd vs,
    radar_data (loaded (map (fun kc => (fst kc, firstn 1 (snd kc))) ex_unrecorded)) = ok rd /\
    In ("No", vs) rd /\
    vs = [None; None; None; None; None].
Proof.
  eexists. eexists. split; [reflexivity|]. split; [right; left; reflexivity|].
  eapply (radar_empty_group
            (loaded (map (fun kc => (fst kc, firstn 1 (snd kc))) ex_unrecorded))
            _ "No" _ [yes]).
  - reflexivity.
  - right. left. reflexivity.
  - reflexivity.
  - intros x [<-|[]]. reflexivity.
Defined.

Lemma mapM_length {A B : Type} (f : A -> result B) (l : list A) (bs : list B) :
  mapM f l = ok bs -> List.length bs = List.length l.
Proof.
  revert bs. induction l as [|a l IH]; intros bs H; simpl in H.
  - now injection H as <-.
  - apply bind_ok in H as (b & _ & H). apply bind_ok in H as (bs' & Hbs & H).
    injection H as <-. simpl. f_equal. now apply IH.
Qed.

Lemma mapM_ok_iff {A B : Type} (f : A -> result B) (l : list A) :
  (exists bs, mapM f l = ok bs) <-> (forall a, In a l -> exists b, f a = ok b).
Proof.
  induction l as [|x l IH]; simpl.
  - split; [intros _ a [] | intros _; now exists []].
  - split.
    + intros (bs & H) a Ha.
      apply bind_ok in H as (b & Hb & H). apply bind_ok in H as (bs' & Hbs & _).
      destruct Ha as [<-|Ha]; [eauto|]. apply IH; eauto.
    + intros H. destruct (H x) as (b & ->); [now left|].
      destruct (proj2 IH) as (bs & ->); [intros a Ha; apply H; now right|].
      simpl. eauto.
Qed.

Lemma radar_counts_ok_iff (df : DataFrame) (g : string) :
  (exists vs, radar_counts df g = ok vs) <->
  lookup diagnosis df <> None /\
  (forall col, In col lifestyle_cols -> lookup col df <> None).
Proof.
  unfold radar_counts, subset_of, getitem.
  destruct (lookup diagnosis df) as [d|]; cbn [bind].
  - rewrite mapM_ok_iff. split.
    + intros H. split; [discriminate|]. intros col Hcol.
      destruct (H col Hcol) as (b & Hb). unfold radar_value, getitem in Hb.
      rewrite lookup_boolean_index in Hb.
      destruct (lookup col df); [discriminate | discriminate].
    + intros (_ & H) col Hcol. specialize (H col Hcol).
      destruct (lookup col df) as [c|] eqn:E; [|congruence].
      rewrite (radar_value_select df _ col c E). eauto.
  - split; [intros (vs & H); discriminate | intros (H & _); congruence].
Qed.

(** The radar is computed whenever the diagnosis column and the five
    lifestyle columns are present, whatever their cells hold, and only
    then; it has one polygon for "Yes" and one for "No", in that order,
    with five values each. *)
Theorem radar_data_succeeds_iff (df : DataFrame) :
  ((exists rd, radar_data df = ok rd) <->
   lookup diagnosis df <> None /\
   (forall col, In col lifestyle_cols -> lookup col df <> None)) /\
  (forall rd, radar_data df = ok rd ->
              exists y n, rd = [("Yes", y); ("No", n)] /\
                          List.length y = 5%nat /\ List.length n = 5%nat).
Proof.
  split; [split|].
  - intros (rd & H). unfold radar_data in H.
    apply bind_ok in H as (y & Hy & _).
    apply (proj1 (radar_counts_ok_iff df "Yes")). eauto.
  - intros H. unfold radar_data.
    destruct (proj2 (radar_counts_ok_iff df "Yes") H) as (y & ->).
    destruct (proj2 (radar_counts_ok_iff df "No") H) as (n & ->).
    simpl. eauto.
  - intros rd H. unfold radar_data in H.
    apply bind_ok in H as (y & Hy & H). apply bind_ok in H as (n & Hn & H).
    injection H as <-. exists y, n. split; [reflexivity|].
    unfold radar_counts in Hy, Hn.
    apply bind_ok in Hy as (sy & _ & Hy). apply bind_ok in Hn as (sn & _ & Hn).
    apply mapM_length in Hy, Hn. auto.
Qed.





(** ** The two charts of the cognitive score *)

(** The line chart and the scatter chart are drawn from one aggregate,
    computed once: a run displays both, with the same table, or neither. *)
Theorem cognitive_charts_together (df : DataFrame) (r : result unit) (s : list artifact) :
  view_builder df [] = (r, s) ->
  forall agg,
    (In (CognitiveLine agg) s <-> In (CognitiveScatter agg) s) /\
    (In (CognitiveLine agg) s -> agg_df df = ok agg).
Proof.
  unfold view_builder, sbind, lift, plotly_chart, pyplot.
  destruct (make_fig1 df) as [a1|] eqn:E1;
    [|intros H; injection H as <- <-; intros agg; simpl; tauto].
  destruct (make_fig2 df) as [a2|] eqn:E2;
    [|intros H; injection H as <- <-; intros agg; simpl;
      unfold make_fig1 in E1; apply bind_ok in E1 as (? & _ & E1); injection E1 as <-;
      intuition discriminate].
  unfold make_fig1 in E1. apply bind_ok in E1 as (h1 & _ & E1). injection E1 as <-.
  unfold make_fig2 in E2. apply bind_ok in E2 as (h2 & _ & E2). injection E2 as <-.
  destruct (corr_matrix df) as [m|];
    [|intros H; injection H as <- <-; intros agg; simpl; intuition discriminate].
  destruct (agg_df df) as [agg0|];
    [|intros H; injection H as <- <-; intros agg; simpl; intuition discriminate].
  intros H agg.
  assert (Hs : exists rest,
             s = [DiagnosisHistogram (fst h1) (snd h1); AgeGroupHistogram (fst h2) (snd h2);
                  CorrelationHeatmap m; CognitiveLine agg0; CognitiveScatter agg0] ++ rest /\
             (forall a, In a rest -> In (chart_of a) [fig5; fig6; fig7; fig8])).
  { destruct (make_fig5 df) as [a5|] eqn:E5;
      [|injection H as <- <-; exists []; split; [reflexivity | intros a []]].
    unfold make_fig5 in E5. apply bind_ok in E5 as (h5 & _ & E5). injection E5 as <-.
    destruct (radar_data df) as [rd|];
      [|injection H as <- <-; eexists [_]; split; [reflexivity|];
        intros a [<-|[]]; simpl; tauto].
    destruct (diagnosed_df df) as [dd|];
      [|injection H as <- <-; eexists [_; _]; split; [reflexivity|];
        intros a [<-|[<-|[]]]; simpl; tauto].
    destruct (top_countries dd) as [t|];
      [|injection H as <- <-; eexists [_; _]; split; [reflexivity|];
        intros a [<-|[<-|[]]]; simpl; tauto].
    destruct (country_counts dd) as [c|];
      injection H as <- <-.
    - eexists [_; _; _; _]. split; [reflexivity|].
      intros a [<-|[<-|[<-|[<-|[]]]]]; simpl; tauto.
    - eexists [_; _; _]. split; [reflexivity|].
      intros a [<-|[<-|[<-|[]]]]; simpl; tauto. }
  destruct Hs as (rest & -> & Hrest).
  assert (Hl : ~ In (CognitiveLine agg) rest).
  { intros Hin. apply Hrest in Hin. simpl in Hin. intuition discriminate. }
  assert (Hc : ~ In (CognitiveScatter agg) rest).
  { intros Hin. apply Hrest in Hin. simpl in Hin. intuition discriminate. }
  simpl. split; [split|]; intros Hin.
  - destruct Hin as [E|[E|[E|[E|[E|Hin]]]]]; try discriminate; [|contradiction].
    injection E as <-. tauto.
  - destruct Hin as [E|[E|[E|[E|[E|Hin]]]]]; try discriminate; [|contradiction].
    injection E as <-. tauto.
  - destruct Hin as [E|[E|[E|[E|[E|Hin]]]]]; try discriminate; [|contradiction].
    now injection E as <-.
Qed.

Lemma cognitive_charts_together_witness :
  (In (CognitiveLine [(Num 55, Str "Yes", Some 40%Q); (Num 65, Str "No", Some 82%Q);
                      (Num 72, Str "No", Some 77%Q); (Num 95, Str "Yes", Some 35%Q)])
      (snd (view_builder (loaded ex_full) [])) <->
   In (CognitiveScatter [(Num 55, Str "Yes", Some 40%Q); (Num 65, Str "No", Some 82%Q);
                         (Num 72, Str "No", Some 77%Q); (Num 95, Str "Yes", Some 35%Q)])
      (snd (view_builder (loaded ex_full) []))) /\
  (In (CognitiveLine [(Num 55, Str "Yes", Some 40%Q); (Num 65, Str "No", Some 82%Q);
                      (Num 72, Str "No", Some 77%Q); (Num 95, Str "Yes", Some 35%Q)])
      (snd (view_builder (loaded ex_full) [])) ->
   agg_df (loaded ex_full)
   = ok [(Num 55, Str "Yes", Some 40%Q); (Num 65, Str "No", Some 82%Q);
         (Num 72, Str "No", Some 77%Q); (Num 95, Str "Yes", Some 35%Q)]).
Proof.
  apply (cognitive_charts_together (loaded ex_full) (ok tt)
           (snd (view_builder (loaded ex_full) []))).
  reflexivity.
Defined.

(** ** When the whole dashboard renders *)

Lemma to_numeric_ok_iff (e : exn) (c : column) :
  (exists v, to_numeric e c = ok v) <-> numeric c.
Proof.
  unfold to_numeric, numeric. rewrite mapM_ok_iff. split.
  - intros H s Hin. destruct (H _ Hin) as (b & Hb). discriminate.
  - intros H x Hx. destruct x as [[q|s]|]; eauto. exfalso. exact (H s Hx).
Qed.

Lemma series_map_numeric (d : column) : numeric (series_map diagnosis_dict d).
Proof.
  intros s Hin. unfold series_map in Hin. apply in_map_iff in Hin as (x & Hx & _).
  destruct x as [[q|t]|]; simpl in Hx; try discriminate.
  destruct (String.eqb t "Yes"); [discriminate|].
  destruct (String.eqb t "No"); discriminate.
Qed.

Lemma getitem_to_numeric_iff (df : DataFrame) (e : exn) (k : string) :
  (exists v, (c <- getitem df k ;; to_numeric e c) = ok v) <-> has_numeric df k.
Proof.
  unfold has_numeric, getitem. destruct (lookup k df) as [c|]; simpl.
  - rewrite to_numeric_ok_iff. split; [eauto|].
    intros (c' & E & H). now injection E as <-.
  - split; [intros (v & H); discriminate | intros (c & H & _); discriminate].
Qed.

Lemma corr_matrix_ok_iff (df : DataFrame) :
  (exists m, corr_matrix df = ok m) <->
  forall k, In k num_features -> has_numeric df k.
Proof.
  unfold corr_matrix, getitems. split.
  - intros (m & H). apply bind_ok in H as (cols & Hc & H).
    apply bind_ok in H as (nums & Hn & _).
    intros k Hk. apply In_nth_error in Hk as (j & Hj).
    destruct (mapM_nth _ _ _ Hc j k Hj) as (c & Hck & Hcj).
    destruct (mapM_nth _ _ _ Hn j c Hcj) as (v & Hv & _).
    apply getitem_ok in Hck. exists c. split; [exact Hck|].
    apply (to_numeric_ok_iff ValueError). eauto.
  - intros H.
    assert (Hc : exists cols, mapM (getitem df) num_features = ok cols /\
                              forall c, In c cols -> numeric c).
    { revert H. generalize num_features as ks.
      induction ks as [|k ks IH]; intros H; simpl.
      - exists []. split; [reflexivity | intros c []].
      - destruct (H k) as (c & Hk & Hnum); [now left|].
        destruct IH as (cols & -> & Hcols); [intros k' Hk'; apply H; now right|].
        unfold getitem at 1. rewrite Hk. simpl. exists (c :: cols).
        split; [reflexivity|]. intros c' [<-|Hc']; auto. }
    destruct Hc as (cols & -> & Hcols). simpl.
    destruct (proj2 (mapM_ok_iff (to_numeric ValueError) cols)) as (nums & ->).
    + intros c Hc. apply to_numeric_ok_iff. auto.
    + simpl. eauto.
Qed.

Lemma agg_df_ok_iff (df : DataFrame) :
  (exists agg, agg_df df = ok agg) <->
  has_column df "Age" /\ has_column df diagnosis /\
  has_numeric df "Cognitive Test Score".
Proof.
  unfold agg_df, has_column, has_numeric, getitem.
  destruct (lookup "Age" df) as [a|]; simpl;
    [|split; [intros (x & H); discriminate | intros (H & _); congruence]].
  destruct (lookup diagnosis df) as [d|]; simpl;
    [|split; [intros (x & H); discriminate | intros (_ & H & _); congruence]].
  destruct (lookup "Cognitive Test Score" df) as [s|]; simpl;
    [|split; [intros (x & H); discriminate | intros (_ & _ & c & H & _); discriminate]].
  split.
  - intros (agg & H). apply bind_ok in H as (v & Hv & _).
    repeat split; try discriminate. exists s. split; [reflexivity|].
    apply (to_numeric_ok_iff TypeError). eauto.
  - intros (_ & _ & c & E & Hnum). injection E as <-.
    destruct (proj2 (to_numeric_ok_iff TypeError s) Hnum) as (v & ->). simpl. eauto.
Qed.

Lemma px_histogram_ok_iff (df : DataFrame) (x color : string) :
  (exists h, px_histogram df x color = ok h) <-> has_column df x /\ has_column df color.
Proof.
  unfold px_histogram, has_column.
  destruct (lookup x df), (lookup color df); split;
    try (intros (h & H); discriminate); try (intros (H1 & H2); congruence);
    try (intros _; split; discriminate); eauto.
Qed.

Lemma country_chart_ok_iff (df : DataFrame) :
  ((exists a, compute fig7 df = ok a) <-> has_column df diagnosis /\ has_column df "Country") /\
  ((exists a, compute fig8 df = ok a) <-> has_column df diagnosis /\ has_column df "Country").
Proof.
  unfold compute, diagnosed_df, subset_of, top_countries, country_counts, getitem,
    has_column.
  destruct (lookup diagnosis df) as [d|]; simpl.
  - rewrite lookup_boolean_index. destruct (lookup "Country" df) as [c|]; simpl.
    + split; split; eauto; intros _; split; discriminate.
    + split; split; try (intros (a & H); discriminate); intros (_ & H); congruence.
  - split; split; try (intros (a & H); discriminate); intros (H & _); congruence.
Qed.

Lemma compute_ok_bind {A : Type} (m : result A) (k : A -> artifact) :
  (exists a, (x <- m ;; ok (k x)) = ok a) <-> exists x, m = ok x.
Proof.
  destruct m as [x|e]; simpl; split; eauto; intros (a & H); discriminate.
Qed.

Lemma view_builder_ok_iff (df : DataFrame) :
  fst (view_builder df []) = ok tt <->
  forall c, In c script_order -> exists a, compute c df = ok a.
Proof.
  rewrite <- mapM_ok_iff. split.
  - intros H. destruct (view_builder df []) as [r s] eqn:E. simpl in H. subst r.
    apply view_builder_complete in E as (arts & Hm & _). eauto.
  - intros (arts & Hm).
    assert (E : view_builder df [] = (ok tt, [] ++ arts)).
    { apply view_builder_complete. exists arts. repeat split; auto.
      now apply mapM_chart_of in Hm. }
    now rewrite E.
Qed.

(** After a successful load the run displays all nine charts exactly
    when the table also has numeric "BMI", "Education Level" and
    "Cognitive Test Score" columns and has the "Gender" column, the
    "Country" column and the five lifestyle columns, whatever these
    hold. *)
Theorem dashboard_renders_iff (f : file) (df : DataFrame) :
  load_data f = ok df ->
  (outcome (main None f) = ok tt <->
   has_numeric df "BMI" /\
   has_numeric df "Education Level" /\
   has_numeric df "Cognitive Test Score" /\
   has_column df "Gender" /\
   has_column df "Country" /\
   (forall col, In col lifestyle_cols -> has_column df col)).
Proof.
  intros H.
  assert (Eo : outcome (main None f) = fst (view_builder df [])).
  { unfold main, load_data_cached. now rewrite H. }
  rewrite Eo, view_builder_ok_iff. clear Eo.
  apply load_data_columns in H as (d & a & g & Hg & Hd & Hb & Ha & Hgr).
  assert (Hcd : has_column df diagnosis) by (unfold has_column; congruence).
  assert (Hca : has_column df "Age") by (unfold has_column; congruence).
  assert (Hcg : has_column df "Age Group") by (unfold has_column; congruence).
  assert (Hna : has_numeric df "Age").
  { exists a. split; auto. eapply cut_ok_numeric; eauto. }
  assert (Hnb : has_numeric df "Diagnosis_Binary").
  { eexists. split; [exact Hb|]. apply series_map_numeric. }
  split.
  - intros Hall.
    assert (H3 : exists a, compute fig_corr df = ok a) by (apply Hall; simpl; tauto).
    assert (H4 : exists a, compute fig3 df = ok a) by (apply Hall; simpl; tauto).
    assert (H5 : exists a, compute fig5 df = ok a) by (apply Hall; simpl; tauto).
    assert (H6 : exists a, compute fig6 df = ok a) by (apply Hall; simpl; tauto).
    assert (H7 : exists a, compute fig7 df = ok a) by (apply Hall; simpl; tauto).
    simpl in H3, H4, H5, H6. unfold make_fig5 in H5.
    apply compute_ok_bind in H3, H4, H5, H6.
    pose proof (proj1 (corr_matrix_ok_iff df) H3) as H3'.
    pose proof (proj1 (agg_df_ok_iff df) H4) as H4'.
    pose proof (proj1 (px_histogram_ok_iff df _ _) H5) as H5'.
    pose proof (proj1 (proj1 (radar_data_succeeds_iff df)) H6) as H6'.
    pose proof (proj1 (proj1 (country_chart_ok_iff df)) H7) as H7'.
    split; [apply H3'; simpl; tauto|].
    split; [apply H3'; simpl; tauto|].
    split; [tauto|]. split; [tauto|]. split; [tauto|].
    exact (proj2 H6').
  - intros (Hbmi & Hedu & Hcog & Hgen & Hcty & Hlife) c Hc.
    assert (Hcorr : exists m, corr_matrix df = ok m).
    { apply corr_matrix_ok_iff. intros k Hk. simpl in Hk.
      destruct Hk as [<-|[<-|[<-|[<-|[<-|[]]]]]]; assumption. }
    assert (Hagg : exists agg, agg_df df = ok agg) by (apply agg_df_ok_iff; auto).
    assert (Hrad : exists rd, radar_data df = ok rd).
    { apply (proj1 (radar_data_succeeds_iff df)). split; auto. }
    simpl in Hc.
    destruct Hc as [<-|[<-|[<-|[<-|[<-|[<-|[<-|[<-|[<-|[]]]]]]]]]]; simpl.
    + unfold make_fig1. apply compute_ok_bind. apply px_histogram_ok_iff. auto.
    + unfold make_fig2. apply compute_ok_bind. apply px_histogram_ok_iff. auto.
    + now apply compute_ok_bind.
    + now apply compute_ok_bind.
    + now apply compute_ok_bind.
    + unfold make_fig5. apply compute_ok_bind. apply px_histogram_ok_iff. auto.
    + now apply compute_ok_bind.
    + apply (proj1 (country_chart_ok_iff df)). auto.
    + apply (proj2 (country_chart_ok_iff df)). auto.
Qed.

Lemma dashboard_renders_iff_witness :
  outcome (main None (Csv ex_full)) = ok tt <->
  has_numeric (loaded ex_full) "BMI" /\
  has_numeric (loaded ex_full) "Education Level" /\
  has_numeric (loaded ex_full) "Cognitive Test Score" /\
  has_column (loaded ex_full) "Gender" /\
  has_column (loaded ex_full) "Country" /\
  (forall col, In col lifestyle_cols -> has_column (loaded ex_full) col).
Proof.
  apply (dashboard_renders_iff (Csv ex_full) (loaded ex_full)). reflexivity.
Defined.

(** ** The range of the correlation coefficients *)

Section CauchySchwarz.

Variable A : Type.
Variables u v : A -> Q.
Variable l : list A.

Let Suu : Q := Qsum (map (fun x => u x * u x) l).
Let Suv : Q := Qsum (map (fun x => u x * v x) l).
Let Svv : Q := Qsum (map (fun x => v x * v x) l).

Lemma Qsum_squares_nonneg (w : A -> Q) : (0 <= Qsum (map (fun x => w x * w x) l))%Q.
Proof.
  apply Qsum_nonneg. intros a Ha. apply in_map_iff in Ha as (x & <- & _).
  destruct (w x) as [n d]. unfold Qle, Qmult. simpl. nia.
Qed.

Lemma quadratic_sum (t : Q) :
  (Qsum (map (fun x => (u x * t + v x) * (u x * t + v x)) l)
   == Suu * t * t + 2 * Suv * t + Svv)%Q.
Proof.
  unfold Suu, Suv, Svv. clear Suu Suv Svv.
  induction l as [|x l' IH]; simpl; [ring|]. rewrite IH. ring.
Qed.

Lemma quadratic_nonneg (t : Q) : (0 <= Suu * t * t + 2 * Suv * t + Svv)%Q.
Proof.
  rewrite <- quadratic_sum.
  exact (Qsum_squares_nonneg (fun x => u x * t + v x)%Q).
Qed.

Lemma cauchy_schwarz : (Suv * Suv <= Suu * Svv)%Q.
Proof.
  assert (Hu : (0 <= Suu)%Q) by exact (Qsum_squares_nonneg u).
  destruct (Qeq_dec Suu 0) as [E0|Hne].
  - assert (ES : (Suv == 0)%Q).
    { destruct (Qeq_dec Suv 0) as [E|HS]; [exact E|]. exfalso.
      pose proof (quadratic_nonneg (- (Svv + 1) / (2 * Suv))) as Hq.
      assert (E : (Suu * (- (Svv + 1) / (2 * Suv)) * (- (Svv + 1) / (2 * Suv))
                   + 2 * Suv * (- (Svv + 1) / (2 * Suv)) + Svv == -(1))%Q).
      { rewrite E0. field. exact HS. }
      rewrite E in Hq. revert Hq. apply Qlt_not_le. reflexivity. }
    rewrite ES, E0. rewrite !Qmult_0_l. apply Qle_refl.
  - assert (Hpos : (0 < Suu)%Q).
    { apply Qle_lteq in Hu as [H|H]; [exact H|]. exfalso. apply Hne. now symmetry. }
    pose proof (quadratic_nonneg (- Suv / Suu)) as Hq.
    assert (E : (Suu * (- Suv / Suu) * (- Suv / Suu) + 2 * Suv * (- Suv / Suu) + Svv
                 == Svv - Suv * Suv / Suu)%Q) by (field; exact Hne).
    rewrite E in Hq.
    assert (E2 : (Suv * Suv == (Suv * Suv / Suu) * Suu)%Q) by (field; exact Hne).
    rewrite E2, (Qmult_comm Suu Svv).
    apply Qmult_le_compat_r; [Lqa.lra | exact Hu].
Qed.

End CauchySchwarz.

Lemma cov_sum_bound (p : list (Q * Q)) :
  (cov_sum p * cov_sum p <= ssq (map fst p) * ssq (map snd p))%Q.
Proof.
  unfold cov_sum, ssq. rewrite !map_map.
  exact (cauchy_schwarz (Q * Q)
           (fun ab => fst ab - mean (map fst p))%Q
           (fun ab => snd ab - mean (map snd p))%Q p).
Qed.

Lemma pearson_range (x y : list (option Q)) (r : R) :
  pearson x y = Some r -> (-1 <= r <= 1)%R.
Proof.
  unfold pearson. set (p := complete_pairs x y).
  set (d := (ssq (map fst p) * ssq (map snd p))%Q).
  destruct (Qeq_bool d 0) eqn:E; [discriminate|].
  intros H. injection H as <-.
  apply Qeq_bool_neq in E.
  assert (Hd0 : (0 <= d)%Q).
  { unfold d. apply Qmult_le_0_compat; apply ssq_nonneg. }
  assert (HD : (0 < Q2R d)%R).
  { rewrite <- Q2R_zero. apply Qlt_Rlt. apply Qle_lteq in Hd0 as [H|H]; [exact H|].
    exfalso. apply E. now symmetry. }
  assert (HC : (Q2R (cov_sum p) * Q2R (cov_sum p) <= Q2R d)%R).
  { rewrite <- Q2R_mult. apply Qle_Rle. apply cov_sum_bound. }
  set (C := Q2R (cov_sum p)) in *. set (D := Q2R d) in *.
  assert (Hs : (0 < sqrt D)%R) by now apply sqrt_lt_R0.
  assert (Habs : (Rabs C <= sqrt D)%R).
  { rewrite <- sqrt_Rsqr_abs. apply sqrt_le_1_alt. exact HC. }
  assert (Er : (C / sqrt D * sqrt D = C)%R) by (field; lra).
  assert (Hup : (C <= sqrt D)%R) by (pose proof (Rle_abs C); lra).
  assert (Hlo : (- sqrt D <= C)%R).
  { pose proof (Rle_abs (- C)) as Hn. rewrite Rabs_Ropp in Hn. lra. }
  set (r := (C / sqrt D)%R) in *. nra.
Qed.

(** Every coefficient of the correlation matrix that is defined lies
    between -1 and 1. *)
Theorem corr_matrix_range (df : DataFrame) (m : list (list (option R)))
        (i j : nat) (r : R) :
  corr_matrix df = ok m ->
  entry m i j = Some (Some r) ->
  (-1 <= r <= 1)%R.
Proof.
  intros H He. apply corr_matrix_ok in H as (cols & _ & ->).
  rewrite entry_corr in He.
  destruct (nth_error cols i) as [x|]; [|discriminate].
  destruct (nth_error cols j) as [y|]; [|discriminate].
  injection He as He. now apply pearson_range in He.
Qed.

Lemma corr_matrix_ex_full_features :
  corr_matrix (loaded ex_full) = ok (corr ex_full_features).
Proof. reflexivity. Qed.

Lemma corr_matrix_range_witness :
  exists r, entry (corr ex_full_features) 0 1 = Some (Some r) /\ (-1 <= r <= 1)%R.
Proof.
  assert (E : exists r, entry (corr ex_full_features) 0 1 = Some (Some r)).
  { rewrite entry_corr. cbn [nth_error ex_full_features]. unfold pearson.
    match goal with
    | |- context [Qeq_bool ?d 0] =>
        assert (Hd : Qeq_bool d 0 = false) by (vm_compute; reflexivity); rewrite Hd
    end.
    eexists. reflexivity. }
  destruct E as (r & E). exists r. split; [exact E|].
  exact (corr_matrix_range (loaded ex_full) _ 0 1 r corr_matrix_ex_full_features E).
Defined.

(** ** The order of the group-by keys *)

Lemma string_compare_lt_trans (a b c : string) :
  String.compare a b = Lt -> String.compare b c = Lt -> String.compare a c = Lt.
Proof.
  revert b c. induction a as [|x a IH]; intros [|y b] [|z c]; simpl;
    try discriminate; try reflexivity.
  unfold Ascii.compare.
  destruct (N.compare_spec (Ascii.N_of_ascii x) (Ascii.N_of_ascii y));
    destruct (N.compare_spec (Ascii.N_of_ascii y) (Ascii.N_of_ascii z));
    destruct (N.compare_spec (Ascii.N_of_ascii x) (Ascii.N_of_ascii z));
    try discriminate; try lia; try reflexivity; intros; eauto.
Qed.

Lemma string_compare_refl (s : string) : String.compare s s = Eq.
Proof.
  induction s as [|x s IH]; simpl; [reflexivity|].
  unfold Ascii.compare. now rewrite N.compare_refl.
Qed.

Lemma string_leb_trans (a b c : string) :
  String.leb a b = true -> String.leb b c = true -> String.leb a c = true.
Proof.
  unfold String.leb.
  destruct (String.compare a b) eqn:Eab; try discriminate;
    destruct (String.compare b c) eqn:Ebc; try discriminate; intros _ _.
  - apply String.compare_eq_iff in Eab, Ebc. rewrite Eab, Ebc.
    now rewrite string_compare_refl.
  - apply String.compare_eq_iff in Eab. rewrite Eab. now rewrite Ebc.
  - apply String.compare_eq_iff in Ebc. rewrite <- Ebc. now rewrite Eab.
  - now rewrite (string_compare_lt_trans a b c Eab Ebc).
Qed.

Lemma cell_leb_trans (a b c : cell) :
  cell_leb a b = true -> cell_leb b c = true -> cell_leb a c = true.
Proof.
  destruct a as [x|s], b as [y|t], c as [z|u]; simpl; try discriminate; auto.
  - intros H1 H2. apply Qle_bool_iff in H1, H2. apply Qle_bool_iff.
    eapply Qle_trans; eauto.
  - apply string_leb_trans.
Qed.

Lemma cell_leb_total (a b : cell) : cell_leb a b = true \/ cell_leb b a = true.
Proof.
  destruct a as [x|s], b as [y|t]; simpl; auto.
  - destruct (Qle_bool x y) eqn:E; auto. right. apply Qle_bool_iff.
    apply Qlt_le_weak, Qnot_le_lt. intros H. apply Qle_bool_iff in H. congruence.
  - apply String.leb_total.
Qed.

Lemma cell_leb_antisym (a b : cell) :
  canonical a -> canonical b ->
  cell_leb a b = true -> cell_leb b a = true -> a = b.
Proof.
  unfold canonical. destruct a as [x|s], b as [y|t]; simpl; try discriminate.
  - intros Hx Hy H1 H2. apply Qle_bool_iff in H1, H2.
    injection Hx as Hx. injection Hy as Hy.
    rewrite <- Hx, <- Hy. f_equal. apply Qred_complete. now apply Qle_antisym.
  - intros _ _ H1 H2. f_equal. now apply String.leb_antisym.
Qed.

Lemma canon_canonical (c : cell) : canonical (canon c).
Proof.
  unfold canonical. destruct c as [q|s]; simpl; [|reflexivity].
  f_equal. apply Qred_complete, Qred_correct.
Qed.

Lemma key_leb_total (a b : cell * cell) : key_leb a b = true \/ key_leb b a = true.
Proof.
  unfold key_leb. destruct (cell_eq_dec (fst a) (fst b)) as [E|Hne].
  - destruct (cell_eq_dec (fst b) (fst a)); [|congruence]. apply cell_leb_total.
  - destruct (cell_eq_dec (fst b) (fst a)); [congruence|]. apply cell_leb_total.
Qed.

Lemma key_leb_antisym (a b : cell * cell) :
  canonical_key a -> canonical_key b ->
  key_leb a b = true -> key_leb b a = true -> a = b.
Proof.
  unfold key_leb, canonical_key. destruct a as [a1 a2], b as [b1 b2]. simpl.
  intros (Ha1 & Ha2) (Hb1 & Hb2).
  destruct (cell_eq_dec a1 b1) as [->|Hne].
  - destruct (cell_eq_dec b1 b1); [|congruence].
    intros H1 H2. f_equal. now apply cell_leb_antisym.
  - destruct (cell_eq_dec b1 a1); [congruence|].
    intros H1 H2. exfalso. apply Hne. now apply cell_leb_antisym.
Qed.

Lemma key_leb_trans (a b c : cell * cell) :
  canonical_key a -> canonical_key b -> canonical_key c ->
  key_leb a b = true -> key_leb b c = true -> key_leb a c = true.
Proof.
  unfold key_leb, canonical_key. destruct a as [a1 a2], b as [b1 b2], c as [c1 c2]. simpl.
  intros (Ha1 & Ha2) (Hb1 & Hb2) (Hc1 & Hc2).
  destruct (cell_eq_dec a1 b1) as [->|Hab]; destruct (cell_eq_dec b1 c1) as [->|Hbc].
  - destruct (cell_eq_dec c1 c1); [|congruence]. apply cell_leb_trans.
  - destruct (cell_eq_dec b1 c1); [congruence|]. auto.
  - destruct (cell_eq_dec a1 c1); [congruence|]. auto.
  - intros H1 H2. destruct (cell_eq_dec a1 c1) as [->|Hac].
    + exfalso. apply Hab. now apply cell_leb_antisym.
    + eapply cell_leb_trans; eauto.
Qed.

Lemma key_lt_trans (a b c : cell * cell) :
  canonical_key a -> canonical_key b -> canonical_key c ->
  key_lt a b -> key_lt b c -> key_lt a c.
Proof.
  intros Ha Hb Hc (H1 & N1) (H2 & N2). split.
  - apply (key_leb_trans a b c); auto.
  - intros ->. apply N1. now apply key_leb_antisym.
Qed.

Lemma insert_key_In (k k' : cell * cell) (l : list (cell * cell)) :
  In k' (insert_key k l) <-> k' = k \/ In k' l.
Proof.
  induction l as [|x l IH]; simpl; [intuition|].
  destruct (key_eq_dec k x) as [->|Hne]; simpl; [intuition|].
  destruct (key_leb k x); simpl; [intuition|]. rewrite IH. intuition.
Qed.

Lemma insert_key_sorted (k : cell * cell) (l : list (cell * cell)) :
  canonical_key k -> Forall canonical_key l ->
  StronglySorted key_lt l -> StronglySorted key_lt (insert_key k l).
Proof.
  intros Hk Hcan Hs. induction l as [|x l IH]; simpl.
  - repeat constructor.
  - inversion Hs as [|? ? Hs' Hall]; subst. inversion Hcan as [|? ? Hx Hcan']; subst.
    destruct (key_eq_dec k x) as [->|Hne]; [exact Hs|].
    destruct (key_leb k x) eqn:E.
    + constructor; [exact Hs|]. constructor; [now split|].
      rewrite Forall_forall in *. intros y Hy.
      apply (key_lt_trans k x y); auto. now split.
    + constructor; [now apply IH|].
      rewrite Forall_forall in *. intros y Hy. apply insert_key_In in Hy as [->|Hy]; auto.
      split; [|congruence].
      destruct (key_leb_total k x) as [H|H]; [congruence | exact H].
Qed.

Lemma sorted_keys_NoDup (l : list (cell * cell)) :
  StronglySorted key_lt l -> NoDup l.
Proof.
  induction 1 as [|x l Hs IH Hall]; constructor; auto.
  intros Hin. rewrite Forall_forall in Hall. destruct (Hall x Hin) as (_ & Hne).
  now apply Hne.
Qed.

Lemma keyed_rows_In (a d : column) (v : list (option Q)) (k : cell * cell) :
  In k (map fst (keyed_rows a d v)) <->
  exists x y s, In (Some x, Some y, s) (combine (combine a d) v) /\ k = (canon x, canon y).
Proof.
  unfold keyed_rows. rewrite in_map_iff. split.
  - intros ([k' s] & E & Hin). simpl in E. subst k'.
    apply in_flat_map in Hin as ([[x y] s'] & Hin & Hr).
    destruct x as [x|]; [|contradiction]. destruct y as [y|]; [|contradiction].
    destruct Hr as [E|[]]. injection E as <- <-. eauto.
  - intros (x & y & s & Hin & ->). exists ((canon x, canon y), s). split; [reflexivity|].
    apply in_flat_map. exists (Some x, Some y, s). split; [exact Hin | now left].
Qed.

(** The aggregate behind the two cognitive charts has one row per
    distinct pair of age and label that occurs in a row where both are
    recorded, and no other row; its rows are in increasing order of age,
    then of label. *)
Theorem agg_df_groups (df : DataFrame) (agg : list ((cell * cell) * option Q)) :
  agg_df df = ok agg ->
  exists a d v,
    lookup "Age" df = Some a /\
    lookup diagnosis df = Some d /\
    (c <- getitem df "Cognitive Test Score" ;; to_numeric TypeError c) = ok v /\
    NoDup (map fst agg) /\
    StronglySorted key_lt (map fst agg) /\
    (forall k, In k (map fst agg) <->
               exists x y s, In (Some x, Some y, s) (combine (combine a d) v) /\
                             k = (canon x, canon y)).
Proof.
  unfold agg_df. intros H.
  apply bind_ok in H as (a & Ha & H). apply bind_ok in H as (d & Hd & H).
  apply bind_ok in H as (s & Hs & H). apply bind_ok in H as (v & Hv & H).
  injection H as <-. apply getitem_ok in Ha, Hd.
  exists a, d, v. split; [exact Ha|]. split; [exact Hd|].
  split; [now rewrite Hs|].
  unfold groupby_mean. rewrite map_map. simpl. rewrite map_id.
  set (ks := map fst (keyed_rows a d v)).
  assert (Hcan : Forall canonical_key ks).
  { apply Forall_forall. intros k Hk. apply keyed_rows_In in Hk as (x & y & s' & _ & ->).
    split; apply canon_canonical. }
  assert (Hin : forall k, In k (fold_right insert_key [] ks) <-> In k ks).
  { clear. induction ks as [|k0 ks IH]; intros k; simpl; [tauto|].
    rewrite insert_key_In, IH. intuition. }
  assert (Hsorted : StronglySorted key_lt (fold_right insert_key [] ks)).
  { clear -Hcan Hin. induction ks as [|k0 ks IH]; simpl; [constructor|].
    inversion Hcan as [|? ? Hk0 Hcan']; subst.
    assert (Hin' : forall k, In k (fold_right insert_key [] ks) <-> In k ks).
    { clear. induction ks as [|k1 ks IH]; intros k; simpl; [tauto|].
      rewrite insert_key_In, IH. intuition. }
    apply insert_key_sorted; auto.
    apply Forall_forall. intros k Hk. apply Hin' in Hk.
    rewrite Forall_forall in Hcan'. auto. }
  split; [now apply sorted_keys_NoDup|]. split; [exact Hsorted|].
  intros k. rewrite Hin. apply keyed_rows_In.
Qed.

Lemma agg_df_groups_witness :
  exists a d v,
    lookup "Age" (loaded ex_full) = Some a /\
    lookup diagnosis (loaded ex_full) = Some d /\
    (c <- getitem (loaded ex_full) "Cognitive Test Score" ;; to_numeric TypeError c) = ok v /\
    NoDup (map fst [(Num 55, Str "Yes", Some 40%Q); (Num 65, Str "No", Some 82%Q);
                    (Num 72, Str "No", Some 77%Q); (Num 95, Str "Yes", Some 35%Q)]) /\
    StronglySorted key_lt
      (map fst [(Num 55, Str "Yes", Some 40%Q); (Num 65, Str "No", Some 82%Q);
                (Num 72, Str "No", Some 77%Q); (Num 95, Str "Yes", Some 35%Q)]) /\
    (forall k,
        In k (map fst [(Num 55, Str "Yes", Some 40%Q); (Num 65, Str "No", Some 82%Q);
                       (Num 72, Str "No", Some 77%Q); (Num 95, Str "Yes", Some 35%Q)]) <->
        exists x y s, In (Some x, Some y, s) (combine (combine a d) v) /\
                      k = (canon x, canon y)).
Proof.
  apply (agg_df_groups (loaded ex_full)). reflexivity.
Defined.

Lemma view_builder_complete_witness :
  exists arts,
    mapM (fun c => compute c (loaded ex_full)) script_order = ok arts /\
    snd (view_builder (loaded ex_full) []) = [] ++ arts /\
    map chart_of arts = script_order.
Proof.
  apply (proj1 (view_builder_complete (loaded ex_full) []
                  (snd (view_builder (loaded ex_full) [])))).
  reflexivity.
Defined.

Lemma radar_data_succeeds_iff_witness :
  exists y n,
    [("Yes", [None; Some (1 # 1); Some (1 # 1); Some (1 # 1); Some (1 # 1)]);
     ("No", [Some (1 # 1); Some (1 # 1); Some (1 # 1); Some (1 # 1); Some (1 # 1)])]%Q
    = [("Yes", y); ("No", n)] /\
    List.length y = 5%nat /\ List.length n = 5%nat.
Proof.
  destruct (radar_data_succeeds_iff (loaded ex_unrecorded)) as (_ & H).
  apply H. reflexivity.
Defined.

(** A radar value that is defined is never 0: it is the share of a value
    that occurs at least once. *)
Theorem radar_value_positive
        (df : DataFrame) (rd : list (string * list (option Q))) (g : string)
        (vs : list (option Q)) (j : nat) (v : Q) :
  radar_data df = ok rd ->
  In (g, vs) rd ->
  nth_error vs j = Some (Some v) ->
  (0 < v)%Q.
Proof.
  intros Hrd Hin Hj.
  apply (radar_data_In df rd g vs Hrd) in Hin.
  unfold radar_counts in Hin. apply bind_ok in Hin as (subset & Hs & Hin).
  unfold subset_of in Hs. apply bind_ok in Hs as (d & Hd & Hs). injection Hs as <-.
  pose proof (mapM_length _ _ _ Hin) as Hlen.
  destruct (nth_error lifestyle_cols j) as [col|] eqn:Hcol.
  - destruct (mapM_nth _ _ _ Hin j col Hcol) as (b & Hb & Hj').
    rewrite Hj in Hj'. injection Hj' as <-.
    unfold radar_value in Hb. apply bind_ok in Hb as (c & Hc & Hb).
    injection Hb as Hb.
    destruct (counted c) as [|k0 l0] eqn:Ec.
    + exfalso. destruct (value_counts_spec c) as (_ & _ & Hkeys & _).
      unfold value_counts_normalized in Hb.
      destruct (value_counts c) as [|e t]; [discriminate|].
      rewrite Ec in Hkeys. apply (proj1 (Hkeys (fst e))). now left.
    + destruct (series_max_share c) as (v' & Hv' & (k & Hk & Ek) & _);
        [rewrite Ec; discriminate|].
      rewrite Hv' in Hb. injection Hb as ->. rewrite Ek. unfold share.
      apply Qlt_shift_div_l.
      * apply Qnat_pos. rewrite Ec. simpl. lia.
      * rewrite Qmult_0_l. apply Qnat_pos. unfold occurrences.
        now apply count_occ_In.
  - exfalso. apply nth_error_None in Hcol.
    assert (Hsome : nth_error vs j <> None) by congruence.
    apply nth_error_Some in Hsome. lia.
Qed.

Lemma radar_value_positive_witness : (0 < 2 # 2)%Q.
Proof.
  apply (radar_value_positive (loaded ex_full)
           [("Yes", [Some (2 # 2); Some (1 # 2); Some (2 # 2); Some (2 # 2); Some (1 # 2)]%Q);
            ("No", [Some (1 # 2); Some (1 # 2); Some (1 # 2); Some (1 # 2); Some (1 # 2)]%Q)]
           "Yes" [Some (2 # 2); Some (1 # 2); Some (2 # 2); Some (2 # 2); Some (1 # 2)]%Q
           0%nat).
  - reflexivity.
  - left. reflexivity.
  - reflexivity.
Defined.
